(** * chatapp-backend: the messaging core, embedded and verified

    A shallow embedding of the socket handler, the REST message routes and
    the Chat / Message schemas.  The document store (MongoDB through
    Mongoose) is modelled as three ordered collections with the primitives
    the handlers call; every [await] is a point where other callers of the
    same store may run. *)

From Stdlib Require Import ZArith List String Ascii Bool Lia DecimalString.
From Stdlib Require Import Sorted Permutation.
From stdpp Require Import base gmap strings.

Import ListNotations.
Local Open Scope Z_scope.
Local Open Scope string_scope.
Local Open Scope list_scope.

(** ** Identifiers, instants *)

(** An ObjectId is handled by the handlers through its [toString()] form. *)
Abbreviation ObjectId := string (only parsing).

(** A JS [Date], as milliseconds since the epoch. *)
Abbreviation Date := Z (only parsing).

(** ** Pair key: [[a, b].map(id => id.toString()).sort().join('_')] *)

Module PairKey.

(** [Array.prototype.sort()] without comparator orders strings by code
    unit; it is stable.  Insertion at the first position whose element is
    not smaller. *)
Fixpoint insert (x : string) (l : list string) : list string :=
  match l with
  | [] => [x]
  | y :: l' => if String.leb x y then x :: y :: l' else y :: insert x l'
  end.

Fixpoint sort (l : list string) : list string :=
  match l with
  | [] => []
  | x :: l' => insert x (sort l')
  end.

(** [Array.prototype.join(sep)]. *)
Definition join (sep : string) (l : list string) : string := String.concat sep l.

(** The handlers' two lines: [sortedParticipants], then [participantsKey]. *)
Definition sortedParticipants (a b : ObjectId) : list string := sort [a; b].

Definition participantsKey (a b : ObjectId) : string :=
  join "_" (sortedParticipants a b).

(** The schema's [pre('validate')] hook computes the key from the stored
    participants array. *)
Definition keyOfParticipants (ps : list ObjectId) : string := join "_" (sort ps).

(** The lexicographically sorted pair, written out. *)
Definition sortedPair (a b : string) : string * string :=
  if String.leb a b then (a, b) else (b, a).

End PairKey.

(** ** Documents *)

Record User := mkUser {
  user_id : ObjectId;
  username : string;
  avatar : string;
  isOnline : bool;
  lastSeen : option Date
}.

(** [chatSchema]; [chat_createdAt] is the [timestamps] field, absent on
    documents imported from elsewhere.  ([updatedAt], which no handler
    reads, is left out here and on messages.) *)
Record Chat := mkChat {
  chat_id : ObjectId;
  participants : list ObjectId;
  participantsKey : string;
  lastMessage : option ObjectId;
  lastMessageAt : option Date;
  isActive : bool;
  chat_createdAt : option Date
}.

(** [messageSchema]; [receiver] and [chatId] are optional on mock messages. *)
Record Message := mkMessage {
  msg_id : ObjectId;
  sender : ObjectId;
  receiver : option ObjectId;
  content : string;
  messageType : string;
  isRead : bool;
  readAt : option Date;
  chatId : option ObjectId;
  isMockMessage : bool;
  msg_createdAt : Date
}.

(** A thrown JS error: [name], the driver's numeric [code] when it has
    one, [message]. *)
Record Error := mkError {
  err_name : string;
  err_code : option Z;
  err_message : string
}.

(** ** Connections and emitted events *)

(** A connection that passed the handshake: [userId] and [user] are what
    the authentication middleware attached to it. *)

Record Socket := mkSocket {
  socketId : string;
  userId : ObjectId;
  user : User
}.

(** The [activeUsers] entry. *)
Record ActiveUser := mkActiveUser {
  au_socketId : string;
  au_user : User;
  connectedAt : Date
}.

Record Profile := mkProfile {
  p_id : ObjectId;
  p_username : string;
  p_avatar : string
}.

Record FormattedMessage := mkFormatted {
  f_id : ObjectId;
  f_content : string;
  f_messageType : string;
  f_sender : Profile;
  f_receiver : Profile;
  f_chatId : ObjectId;
  f_timestamp : Date;
  f_isRead : bool
}.

Inductive Event :=
| user_online (uid : ObjectId) (name : string) (av : string)
| user_offline (uid : ObjectId) (name : string)
| error_event (message : string)
| new_message (m : FormattedMessage)
| message_sent (m : FormattedMessage)
| chat_message (m : FormattedMessage)
| message_read (messageId : ObjectId) (at_ : option Date)
| message_deleted (messageId : string) (chat : string).

(** Where an event goes: [socket.emit], [socket.broadcast.emit] (every
    connection but the emitting one), [io.to(room).emit]. *)
Inductive Target :=
| ToSocket (sid : string)
| BroadcastFrom (sid : string)
| ToRoom (room : string).

(** ** The world a handler runs in *)

(** Operations of other clients of the same store, and the passing of
    time, that may take effect while a handler is suspended in [await]. *)
Inductive EnvOp :=
| EnvTick (ms : N)
| EnvInsertUser (u : User)
| EnvRemoveUser (id : ObjectId)
| EnvInsertChat (c : Chat)
| EnvRemoveChat (id : ObjectId)
| EnvDeactivateChats (ids : list ObjectId)
| EnvInsertMessage (m : Message)
| EnvRemoveMessage (id : ObjectId).

(** What happens at one [await]: the operations that land first, and
    whether the awaited store call itself rejects. *)
Record Turn := mkTurn {
  before : list EnvOp;
  fault : option Error
}.

(** The three collections in natural order, the clock, the driver's
    ObjectId counter, the [activeUsers] map, the rooms joined, the events
    emitted so far, and what is still to happen at the coming [await]s. *)
Record World := mkWorld {
  users : list User;
  chats : list Chat;
  messages : list Message;
  clock : Date;
  oidCounter : N;
  activeUsers : gmap string ActiveUser;
  joined : list (string * string);
  outbox : list (Target * Event);
  sched : list Turn
}.

Definition set_users (v : list User) (w : World) : World :=
  mkWorld v (chats w) (messages w) (clock w) (oidCounter w) (activeUsers w)
          (joined w) (outbox w) (sched w).
Definition set_chats (v : list Chat) (w : World) : World :=
  mkWorld (users w) v (messages w) (clock w) (oidCounter w) (activeUsers w)
          (joined w) (outbox w) (sched w).
Definition set_messages (v : list Message) (w : World) : World :=
  mkWorld (users w) (chats w) v (clock w) (oidCounter w) (activeUsers w)
          (joined w) (outbox w) (sched w).
Definition set_clock (v : Date) (w : World) : World :=
  mkWorld (users w) (chats w) (messages w) v (oidCounter w) (activeUsers w)
          (joined w) (outbox w) (sched w).
Definition set_oidCounter (v : N) (w : World) : World :=
  mkWorld (users w) (chats w) (messages w) (clock w) v (activeUsers w)
          (joined w) (outbox w) (sched w).
Definition set_activeUsers (v : gmap string ActiveUser) (w : World) : World :=
  mkWorld (users w) (chats w) (messages w) (clock w) (oidCounter w) v
          (joined w) (outbox w) (sched w).
Definition set_joined (v : list (string * string)) (w : World) : World :=
  mkWorld (users w) (chats w) (messages w) (clock w) (oidCounter w)
          (activeUsers w) v (outbox w) (sched w).
Definition set_outbox (v : list (Target * Event)) (w : World) : World :=
  mkWorld (users w) (chats w) (messages w) (clock w) (oidCounter w)
          (activeUsers w) (joined w) v (sched w).
Definition set_sched (v : list Turn) (w : World) : World :=
  mkWorld (users w) (chats w) (messages w) (clock w) (oidCounter w)
          (activeUsers w) (joined w) (outbox w) v.

(** ** ObjectId casting and generation *)

Definition isDigit (c : ascii) : bool :=
  let n := N_of_ascii c in ((48 <=? n) && (n <=? 57))%N.
Definition isLowerHex (c : ascii) : bool :=
  let n := N_of_ascii c in ((97 <=? n) && (n <=? 102))%N.
Definition isUpperHex (c : ascii) : bool :=
  let n := N_of_ascii c in ((65 <=? n) && (n <=? 70))%N.
Definition isHexDigit (c : ascii) : bool :=
  isDigit c || isLowerHex c || isUpperHex c.

Definition lowerHex (c : ascii) : ascii :=
  if isUpperHex c then ascii_of_N (N_of_ascii c + 32) else c.

(** express-validator's [isMongoId]: 24 hexadecimal characters. *)
Definition isMongoId (s : string) : bool :=
  (String.length s =? 24)%nat && forallb isHexDigit (list_ascii_of_string s).

(** Mongoose casts a 24-character hexadecimal string to an ObjectId, whose
    [toString()] is the lower-case form; anything else is a [CastError]. *)
Definition castObjectId (s : string) : option ObjectId :=
  if isMongoId s
  then Some (string_of_list_ascii (map lowerHex (list_ascii_of_string s)))
  else None.

Definition hexChar (d : N) : ascii :=
  match String.get (N.to_nat d) "0123456789abcdef" with
  | Some c => c
  | None => "0"%char
  end.

Fixpoint hexDigits (k : nat) (n : N) (acc : string) : string :=
  match k with
  | O => acc
  | S k' => hexDigits k' (n / 16)%N (String (hexChar (n mod 16)%N) acc)
  end.

(** The driver's ObjectId generator, as a counter rendered on 24 digits. *)
Definition oidOfCounter (n : N) : ObjectId := hexDigits 24 n "".

(** ** Errors thrown by the store layer *)

Definition duplicateKeyError : Error :=
  mkError "MongoServerError" (Some 11000) "E11000 duplicate key error".
Definition castError : Error :=
  mkError "CastError" None "Cast to ObjectId failed".
Definition validationError (msg : string) : Error :=
  mkError "ValidationError" None msg.
Definition documentNotFoundError : Error :=
  mkError "DocumentNotFoundError" None "No document found for query".
Definition typeError (msg : string) : Error :=
  mkError "TypeError" None msg.
Definition hookError (msg : string) : Error :=
  mkError "Error" None msg.

(** [error.code === 11000] *)
Definition isDuplicateKey (e : Error) : bool :=
  match err_code e with
  | Some c => (c =? 11000)%Z
  | None => false
  end.

(** ** The handler monad: a world, and a value or a thrown error *)

Definition M (A : Type) : Type := World -> (Error + A) * World.

Definition ret {A} (a : A) : M A := fun w => (inr a, w).
Definition throw {A} (e : Error) : M A := fun w => (inl e, w).
Definition bind {A B} (m : M A) (k : A -> M B) : M B :=
  fun w => match m w with
           | (inl e, w') => (inl e, w')
           | (inr a, w') => k a w'
           end.
Definition try_catch {A} (m : M A) (h : Error -> M A) : M A :=
  fun w => match m w with
           | (inl e, w') => h e w'
           | (inr a, w') => (inr a, w')
           end.

Notation "x <- m ;; k" := (bind m (fun x => k))
  (at level 100, m at next level, right associativity).
Notation "m ;;; k" := (bind m (fun _ => k))
  (at level 100, right associativity).

Definition modify (f : World -> World) : M unit := fun w => (inr tt, f w).

(** [new Date()] *)
Definition now : M Date := fun w => (inr (clock w), w).

(** [new mongoose.Types.ObjectId()] *)
Definition newObjectId : M ObjectId :=
  fun w => (inr (oidOfCounter (oidCounter w)),
            set_oidCounter (oidCounter w + 1)%N w).

Definition emit (t : Target) (e : Event) : M unit :=
  modify (fun w => set_outbox (outbox w ++ [(t, e)]) w).

(** ** The collections and their queries *)

Definition chat_set_key (ps : list ObjectId) (k : string) (c : Chat) : Chat :=
  mkChat (chat_id c) ps k (lastMessage c) (lastMessageAt c) (isActive c)
         (chat_createdAt c).
Definition chat_set_last (lm : option ObjectId) (lmAt : option Date) (c : Chat) : Chat :=
  mkChat (chat_id c) (participants c) (participantsKey c) lm lmAt (isActive c)
         (chat_createdAt c).
Definition chat_set_active (b : bool) (c : Chat) : Chat :=
  mkChat (chat_id c) (participants c) (participantsKey c) (lastMessage c)
         (lastMessageAt c) b (chat_createdAt c).
Definition chat_set_createdAt (t : option Date) (c : Chat) : Chat :=
  mkChat (chat_id c) (participants c) (participantsKey c) (lastMessage c)
         (lastMessageAt c) (isActive c) t.

Definition msg_set_read (t : Date) (m : Message) : Message :=
  mkMessage (msg_id m) (sender m) (receiver m) (content m) (messageType m)
            true (Some t) (chatId m) (isMockMessage m) (msg_createdAt m).
Definition msg_set_chatId (c : ObjectId) (m : Message) : Message :=
  mkMessage (msg_id m) (sender m) (receiver m) (content m) (messageType m)
            (isRead m) (readAt m) (Some c) (isMockMessage m) (msg_createdAt m).
Definition msg_set_stored (txt : string) (t : Date) (m : Message) : Message :=
  mkMessage (msg_id m) (sender m) (receiver m) txt (messageType m)
            (isRead m) (readAt m) (chatId m) (isMockMessage m) t.

Definition user_set_presence (on : bool) (t : Date) (u : User) : User :=
  mkUser (user_id u) (username u) (avatar u) on (Some t).

Definition optEqb (a : option ObjectId) (b : ObjectId) : bool :=
  match a with
  | Some x => x =? b
  | None => false
  end.

Definition memId (x : ObjectId) (l : list ObjectId) : bool :=
  existsb (fun y => y =? x) l.

(** Apply [f] to the first element satisfying [p] (an [updateOne]). *)
Fixpoint updateFirst {A} (p : A -> bool) (f : A -> A) (l : list A) : list A :=
  match l with
  | [] => []
  | x :: l' => if p x then f x :: l' else x :: updateFirst p f l'
  end.

(** Drop the first element satisfying [p] (a [deleteOne]). *)
Fixpoint removeFirst {A} (p : A -> bool) (l : list A) : list A :=
  match l with
  | [] => []
  | x :: l' => if p x then l' else x :: removeFirst p l'
  end.

Definition findUser (id : ObjectId) (us : list User) : option User :=
  List.find (fun u => user_id u =? id) us.
Definition findChatById (id : ObjectId) (cs : list Chat) : option Chat :=
  List.find (fun c => chat_id c =? id) cs.
Definition findChatByKey (k : string) (cs : list Chat) : option Chat :=
  List.find (fun c => participantsKey c =? k) cs.
Definition findMessage (id : ObjectId) (ms : list Message) : option Message :=
  List.find (fun m => msg_id m =? id) ms.

(** [Message.find({ chatId }).sort({ createdAt: -1 }).limit(1)]: the
    message of the chat with the greatest creation time, the earliest
    stored one among equals. *)
Definition newer (best : option Message) (m : Message) : option Message :=
  match best with
  | None => Some m
  | Some b => if (msg_createdAt b <? msg_createdAt m)%Z then Some m else Some b
  end.

Definition latestOfChat (cid : ObjectId) (ms : list Message) : list Message :=
  match fold_left (fun best m => if optEqb (chatId m) cid then newer best m else best)
                  ms None with
  | Some m => [m]
  | None => []
  end.

(** *** The Chat schema's [pre('validate')] hook *)

Definition preValidate (c : Chat) : Error + Chat :=
  if (List.length (participants c) =? 2)%nat
  then let sorted := PairKey.sort (participants c) in
       inr (chat_set_key sorted (PairKey.join "_" sorted) c)
  else inl (hookError "Chat must have exactly 2 participants").

(** *** Message validation: [required], [trim], [maxlength], [enum] *)

Definition isSpace (c : ascii) : bool :=
  let n := N_of_ascii c in ((n =? 32) || ((9 <=? n) && (n <=? 13)))%N.

Fixpoint dropSpaces (l : list ascii) : list ascii :=
  match l with
  | [] => []
  | c :: l' => if isSpace c then dropSpaces l' else l
  end.

Definition trim (s : string) : string :=
  string_of_list_ascii
    (rev (dropSpaces (rev (dropSpaces (list_ascii_of_string s))))).

Definition isMessageType (t : string) : bool :=
  (t =? "text") || (t =? "image") || (t =? "file").

Definition hasRefs (m : Message) : bool :=
  match receiver m, chatId m with
  | Some _, Some _ => true
  | _, _ => false
  end.

Definition validateMessage (m : Message) : Error + Message :=
  let txt := trim (content m) in
  if (String.length txt =? 0)%nat then
    inl (validationError "Message content is required")
  else if (1000 <? String.length txt)%nat then
    inl (validationError "Message cannot exceed 1000 characters")
  else if negb (isMessageType (messageType m)) then
    inl (validationError "messageType is not a valid enum value")
  else if negb (isMockMessage m) && negb (hasRefs m) then
    inl (validationError "Path is required")
  else inr (msg_set_stored txt (msg_createdAt m) m).

(** ** Store calls *)

(** [chat.save()] on a document built by [new Chat(...)]: the validate
    hook, the timestamps, then an insert under the unique indexes on
    [participantsKey] and on [_id]. *)
Definition Chat_save_new (c : Chat) : M Chat := fun w =>
  match preValidate c with
  | inl e => (inl e, w)
  | inr c' =>
    let doc := chat_set_createdAt (Some (clock w)) c' in
    if existsb (fun d => (participantsKey d =? participantsKey doc)
                         || (chat_id d =? chat_id doc)) (chats w)
    then (inl duplicateKeyError, w)
    else (inr doc, set_chats (chats w ++ [doc]) w)
  end.

(** [chat.save()] on a stored document: the validate hook, then an update
    by [_id] of the paths the handlers and the hook assign.  [isActive] and
    the timestamps are not among them. *)
Definition Chat_save (c : Chat) : M Chat := fun w =>
  match preValidate c with
  | inl e => (inl e, w)
  | inr c' =>
    match findChatById (chat_id c') (chats w) with
    | None => (inl documentNotFoundError, w)
    | Some d =>
      if negb (participantsKey d =? participantsKey c')
         && existsb (fun x => participantsKey x =? participantsKey c') (chats w)
      then (inl duplicateKeyError, w)
      else (inr c',
            set_chats
              (updateFirst (fun x => chat_id x =? chat_id c')
                 (fun x => chat_set_last (lastMessage c') (lastMessageAt c')
                             (chat_set_key (participants c') (participantsKey c') x))
                 (chats w)) w)
    end
  end.

(** [Chat.findOne({ participantsKey })]: no filter on [isActive]. *)
Definition Chat_findOne (k : string) : M (option Chat) :=
  fun w => (inr (findChatByKey k (chats w)), w).

(** [Chat.updateMany({ _id: { $in: ids } }, { isActive: false })] *)
Definition deactivateAll (ids : list ObjectId) (cs : list Chat) : list Chat :=
  map (fun c => if memId (chat_id c) ids then chat_set_active false c else c) cs.

Definition Chat_deactivateMany (ids : list ObjectId) : M unit :=
  modify (fun w => set_chats (deactivateAll ids (chats w)) w).

(** [await message.save()] on a new message. *)
Definition Message_save (m : Message) : M Message := fun w =>
  match validateMessage m with
  | inl e => (inl e, w)
  | inr m' =>
    let doc := msg_set_stored (content m') (clock w) m' in
    if existsb (fun d => msg_id d =? msg_id doc) (messages w)
    then (inl duplicateKeyError, w)
    else (inr doc, set_messages (messages w ++ [doc]) w)
  end.

Definition User_findById (id : string) : M (option User) := fun w =>
  match castObjectId id with
  | None => (inl castError, w)
  | Some oid => (inr (findUser oid (users w)), w)
  end.

(** [User.findByIdAndUpdate(id, { isOnline, lastSeen })] *)
Definition User_setPresence (id : ObjectId) (on : bool) (t : Date) : M unit :=
  modify (fun w => set_users
    (updateFirst (fun u => user_id u =? id) (user_set_presence on t) (users w)) w).

Definition Message_findById (id : string) : M (option Message) := fun w =>
  match castObjectId id with
  | None => (inl castError, w)
  | Some oid => (inr (findMessage oid (messages w)), w)
  end.

(** [Message.deleteOne({ _id })] *)
Definition Message_deleteOne (id : string) : M unit := fun w =>
  match castObjectId id with
  | None => (inl castError, w)
  | Some oid =>
    (inr tt, set_messages (removeFirst (fun m => msg_id m =? oid) (messages w)) w)
  end.

(** [Message.findByIdAndUpdate(id, { isRead: true, readAt }, { new: true })] *)
Definition Message_markRead (id : string) (t : Date) : M (option Message) := fun w =>
  match castObjectId id with
  | None => (inl castError, w)
  | Some oid =>
    match findMessage oid (messages w) with
    | None => (inr None, w)
    | Some m =>
      (inr (Some (msg_set_read t m)),
       set_messages (updateFirst (fun x => msg_id x =? oid) (msg_set_read t)
                                 (messages w)) w)
    end
  end.

(** [Message.find({ chatId }).sort({ createdAt: -1 }).limit(1)] *)
Definition Message_findLatest (cid : string) : M (list Message) := fun w =>
  match castObjectId cid with
  | None => (inl castError, w)
  | Some oid => (inr (latestOfChat oid (messages w)), w)
  end.

(** [Message.updateMany({ chatId: { $in: ids } }, { chatId: keep })] *)
Definition moveOne (ids : list ObjectId) (keep : ObjectId) (m : Message) : Message :=
  match chatId m with
  | Some c => if memId c ids then msg_set_chatId keep m else m
  | None => m
  end.

Definition Message_moveMany (ids : list ObjectId) (keep : ObjectId) : M unit :=
  modify (fun w => set_messages (map (moveOne ids keep) (messages w)) w).

(** A chat with its [lastMessage] path populated.  Mongoose assigns [null]
    to a populated single reference whose document does not exist. *)
Record PopulatedChat := mkPopulated {
  pc_chat : Chat;
  pc_lastMessage : option Message
}.

Definition populateLastMessage (ms : list Message) (c : Chat) : PopulatedChat :=
  mkPopulated c match lastMessage c with
                | Some id => findMessage id ms
                | None => None
                end.

(** [Chat.findById(id).populate("lastMessage")]; [findById(undefined)]
    resolves to [null]. *)
Definition Chat_findById_populated (id : option string) : M (option PopulatedChat) :=
  fun w =>
    match id with
    | None => (inr None, w)
    | Some s =>
      match castObjectId s with
      | None => (inl castError, w)
      | Some oid =>
        (inr (option_map (populateLastMessage (messages w))
                         (findChatById oid (chats w))), w)
      end
    end.

(** ** Suspension points *)

Definition envStep (op : EnvOp) (w : World) : World :=
  match op with
  | EnvTick ms => set_clock (clock w + Z.of_N ms)%Z w
  | EnvInsertUser u =>
    if existsb (fun x => user_id x =? user_id u) (users w) then w
    else set_users (users w ++ [u]) w
  | EnvRemoveUser id =>
    set_users (removeFirst (fun u => user_id u =? id) (users w)) w
  | EnvInsertChat c => snd (Chat_save_new c w)
  | EnvRemoveChat id =>
    set_chats (removeFirst (fun c => chat_id c =? id) (chats w)) w
  | EnvDeactivateChats ids => snd (Chat_deactivateMany ids w)
  | EnvInsertMessage m => snd (Message_save m w)
  | EnvRemoveMessage id =>
    set_messages (removeFirst (fun m => msg_id m =? id) (messages w)) w
  end.

Definition envSteps (ops : list EnvOp) (w : World) : World :=
  fold_left (fun w op => envStep op w) ops w.

(** [await call]: the handler is suspended; the next turn of the schedule,
    if any, takes effect, then the call resolves or rejects.  An empty
    schedule is a quiet, fault-free store. *)
Definition await {A} (call : M A) : M A := fun w =>
  match sched w with
  | [] => call w
  | t :: rest =>
    let w1 := envSteps (before t) (set_sched rest w) in
    match fault t with
    | Some e => (inl e, w1)
    | None => call w1
    end
  end.

(** ** Chat resolution *)

(** [chat = new Chat({ participants: [a, b], isActive: true }); await
    chat.save()].  [lastMessageAt] takes its default, [Date.now]. *)
Definition createChat (a b : string) : M Chat :=
  id <- newObjectId ;;
  t <- now ;;
  match castObjectId a, castObjectId b with
  | Some a', Some b' =>
    await (Chat_save_new (mkChat id [a'; b'] "" None (Some t) true None))
  | _, _ => await (throw (validationError "Cast to ObjectId failed"))
  end.

(** The find-or-create block of the socket [send_message] handler, of
    [POST /] and of [POST /upload] (the three copies are the same text). *)
Definition resolveChat (senderId receiverId : string) : M Chat :=
  let sortedParticipants := PairKey.sort [senderId; receiverId] in
  let participantsKey := PairKey.join "_" sortedParticipants in
  chat <- await (Chat_findOne participantsKey) ;;
  match chat with
  | Some c => ret c
  | None =>
    try_catch (createChat senderId receiverId)
      (fun error =>
         if isDuplicateKey error then
           chat <- await (Chat_findOne participantsKey) ;;
           match chat with
           | None => throw error
           | Some c => ret c
           end
         else throw error)
  end.

(** The same block in [POST /chat/create], where the re-read is not
    checked: [chat] may be [null] afterwards. *)
Definition resolveChatOrNull (senderId receiverId : string) : M (option Chat) :=
  let sortedParticipants := PairKey.sort [senderId; receiverId] in
  let participantsKey := PairKey.join "_" sortedParticipants in
  chat <- await (Chat_findOne participantsKey) ;;
  match chat with
  | Some c => ret (Some c)
  | None =>
    try_catch (c <- createChat senderId receiverId ;; ret (Some c))
      (fun error =>
         if isDuplicateKey error then await (Chat_findOne participantsKey)
         else throw error)
  end.

(** ** Sending *)

(** [new Message({ sender, receiver, content, messageType, chatId })] *)
Definition newMessage (senderId receiverId content messageType : string)
           (cid : ObjectId) : M Message :=
  id <- newObjectId ;;
  ret (mkMessage id senderId (castObjectId receiverId) content messageType
                 false None (Some cid) false 0).

(** [message.populate(path, 'username avatar')] *)
Definition populateProfile (id : option ObjectId) : M (option Profile) := fun w =>
  (inr match id with
       | Some i => option_map (fun u => mkProfile (user_id u) (username u) (avatar u))
                              (findUser i (users w))
       | None => None
       end, w).

(** The part of the three send paths between chat resolution and the
    replies: persist the message, then move the chat's last-message
    pointer. *)
Definition persistMessage (senderId receiverId content messageType : string)
           (chat : Chat) : M (Message * Chat) :=
  message <- newMessage senderId receiverId content messageType (chat_id chat) ;;
  message <- await (Message_save message) ;;
  t <- now ;;
  let chat := chat_set_last (Some (msg_id message)) (Some t) chat in
  chat <- await (Chat_save chat) ;;
  ret (message, chat).

Definition formatMessage (message : Message) (chat : Chat)
           (s r : option Profile) : M FormattedMessage :=
  match s, r with
  | Some s, Some r =>
    ret (mkFormatted (msg_id message) (content message) (messageType message)
                     s r (chat_id chat) (msg_createdAt message) (isRead message))
  | _, _ => throw (typeError "Cannot read properties of null (reading '_id')")
  end.

(** [socket.on('send_message', ...)] *)
Definition send_message (socket : Socket) (receiverId content : string)
           (messageType : option string) : M unit :=
  try_catch
    (let messageType := default "text" messageType in
     receiverDoc <- await (User_findById receiverId) ;;
     match receiverDoc with
     | None => emit (ToSocket (socketId socket)) (error_event "Receiver not found")
     | Some _ =>
       chat <- resolveChat (userId socket) receiverId ;;
       saved <- persistMessage (userId socket) receiverId content messageType chat ;;
       let message := fst saved in
       let chat := snd saved in
       s <- await (populateProfile (Some (sender message))) ;;
       r <- await (populateProfile (receiver message)) ;;
       formattedMessage <- formatMessage message chat s r ;;
       emit (ToRoom ("user_" ++ receiverId)) (new_message formattedMessage) ;;;
       emit (ToSocket (socketId socket)) (message_sent formattedMessage) ;;;
       emit (ToRoom ("chat_" ++ chat_id chat)) (chat_message formattedMessage)
     end)
    (fun error => emit (ToSocket (socketId socket))
                       (error_event "Error sending message")).

(** ** The REST routes *)

Record FormattedChat := mkFormattedChat {
  fc_id : ObjectId;
  fc_user : User
}.

Inductive Body :=
| NoBody
| ErrorsBody (errors : list string)
| MessageBody (m : Message) (s r : option Profile)
| ChatBody (c : FormattedChat)
| CleanupBody (orphanedChats mergedChats totalCleaned : nat).

Record Response := mkResponse {
  status : Z;
  success : bool;
  res_message : string;
  body : Body
}.

(** The express-validator chain of [POST /]. *)
Definition validateSend (receiverId content : string) : list string :=
  (if isMongoId receiverId then [] else ["Invalid receiver ID"])
  ++ (if (String.length content =? 0)%nat then ["Message content is required"] else [])
  ++ (if (1000 <? String.length content)%nat
      then ["Message cannot exceed 1000 characters"] else []).

(** [router.post("/", auth, ...)]; [reqUser] is the user [auth] attached. *)
Definition post_message (reqUser : User) (receiverId content : string)
           (messageType : option string) : M Response :=
  try_catch
    (match validateSend receiverId content with
     | (_ :: _) as errors =>
       ret (mkResponse 400 false "Validation failed" (ErrorsBody errors))
     | [] =>
       let messageType := default "text" messageType in
       let senderId := user_id reqUser in
       receiverDoc <- await (User_findById receiverId) ;;
       match receiverDoc with
       | None => ret (mkResponse 404 false "Receiver not found" NoBody)
       | Some _ =>
         chat <- resolveChat senderId receiverId ;;
         saved <- persistMessage senderId receiverId content messageType chat ;;
         let message := fst saved in
         s <- await (populateProfile (Some (sender message))) ;;
         r <- await (populateProfile (receiver message)) ;;
         ret (mkResponse 201 true "Message sent successfully" (MessageBody message s r))
       end
     end)
    (fun error => ret (mkResponse 500 false "Server error while sending message" NoBody)).

Record UploadedFile := mkFile {
  filename : string;
  mimetype : option string
}.

(** [router.post("/upload", auth, upload.single("file"), ...)];
    [socketUrl] is [process.env.REACT_APP_SOCKET_URL], [io] tells whether
    the server module exported its socket server. *)
Definition post_upload (io : bool) (socketUrl : string) (reqUser : User)
           (receiverId : option string) (file : option UploadedFile) : M Response :=
  try_catch
    (let senderId := user_id reqUser in
     match receiverId with
     | None | Some "" => ret (mkResponse 400 false "receiverId is required" NoBody)
     | Some receiverId =>
       receiverDoc <- await (User_findById receiverId) ;;
       match receiverDoc with
       | None => ret (mkResponse 404 false "Receiver not found" NoBody)
       | Some _ =>
         chat <- resolveChat senderId receiverId ;;
         match file with
         | None => ret (mkResponse 400 false "No file uploaded" NoBody)
         | Some f =>
           let filePath := (socketUrl ++ "/uploads/messages/" ++ filename f)%string in
           let mime := default "" (mimetype f) in
           let messageType := if String.prefix "image/" mime then "image" else "file" in
           saved <- persistMessage senderId receiverId filePath messageType chat ;;
           let message := fst saved in
           let chat := snd saved in
           s <- await (populateProfile (Some (sender message))) ;;
           r <- await (populateProfile (receiver message)) ;;
           formattedMessage <- formatMessage message chat s r ;;
           (if io then
              emit (ToRoom ("chat_" ++ chat_id chat)) (new_message formattedMessage) ;;;
              emit (ToRoom ("user_" ++ receiverId)) (new_message formattedMessage) ;;;
              emit (ToRoom ("user_" ++ senderId)) (message_sent formattedMessage)
            else ret tt) ;;;
           ret (mkResponse 201 true "File message sent" (MessageBody message s r))
         end
       end
     end)
    (fun error => ret (mkResponse 500 false "Server error while uploading message" NoBody)).

(** [chat.populate("participants", ...)]: Mongoose drops from a populated
    array the references that resolve to no document, so no element is
    [null]; the element type keeps the possibility, as the handlers test
    for it. *)
Definition populateParticipants (c : Chat) : M (list (option User)) := fun w =>
  (inr (flat_map (fun id => match findUser id (users w) with
                            | Some u => [Some u]
                            | None => []
                            end) (participants c)), w).

(** [participants.find(p => p._id.toString() !== senderId.toString())] *)
Fixpoint findOther (senderId : ObjectId) (ps : list (option User)) : M (option User) :=
  match ps with
  | [] => ret None
  | None :: _ => throw (typeError "Cannot read properties of null (reading '_id')")
  | Some p :: ps' =>
    if negb (user_id p =? senderId) then ret (Some p) else findOther senderId ps'
  end.

(** [router.post("/chat/create", auth, ...)] *)
Definition post_chat_create (reqUser : User) (receiverId : string) : M Response :=
  try_catch
    (if negb (isMongoId receiverId) then
       ret (mkResponse 400 false "Validation failed" (ErrorsBody ["Invalid receiver ID"]))
     else
       let senderId := user_id reqUser in
       receiverDoc <- await (User_findById receiverId) ;;
       match receiverDoc with
       | None => ret (mkResponse 404 false "Receiver not found" NoBody)
       | Some _ =>
         chat <- resolveChatOrNull senderId receiverId ;;
         match chat with
         | None => throw (typeError "Cannot read properties of null (reading 'populate')")
         | Some chat =>
           ps <- await (populateParticipants chat) ;;
           otherParticipant <- findOther senderId ps ;;
           match otherParticipant with
           | None => ret (mkResponse 500 false "Error finding chat participant" NoBody)
           | Some other =>
             ret (mkResponse 201 true "Chat created successfully"
                             (ChatBody (mkFormattedChat (chat_id chat) other)))
           end
         end
       end)
    (fun error => ret (mkResponse 500 false "Server error while creating chat" NoBody)).

(** ** Deleting *)

(** The block both delete paths run after [Message.deleteOne]: load the
    chat with [lastMessage] populated and, when the populated message is
    the deleted one, point the chat at the latest message left. *)
Definition updateLastMessage (chatRef : option string) (messageId : string) : M unit :=
  chat <- await (Chat_findById_populated chatRef) ;;
  match chat with
  | Some pc =>
    match pc_lastMessage pc with
    | Some lm =>
      if msg_id lm =? messageId then
        latest <- await (Message_findLatest (default "" chatRef)) ;;
        let chat' :=
          match latest with
          | m :: _ => chat_set_last (Some (msg_id m)) (Some (msg_createdAt m)) (pc_chat pc)
          | [] => chat_set_last None None (pc_chat pc)
          end in
        await (Chat_save chat') ;;; ret tt
      else ret tt
    | None => ret tt
    end
  | None => ret tt
  end.

Definition roomOfReceiver (m : Message) : string :=
  match receiver m with
  | Some r => "user_" ++ r
  | None => "user_undefined"
  end.

(** [socket.on('delete_message', ...)]: [chatId] comes from the client. *)
Definition delete_message (socket : Socket) (messageId chatId : string) : M unit :=
  try_catch
    (message <- await (Message_findById messageId) ;;
     match message with
     | None => emit (ToSocket (socketId socket)) (error_event "Message not found")
     | Some message =>
       if negb (sender message =? userId socket) then
         emit (ToSocket (socketId socket))
              (error_event "Not authorized to delete this message")
       else
         await (Message_deleteOne messageId) ;;;
         updateLastMessage (Some chatId) messageId ;;;
         emit (ToRoom ("chat_" ++ chatId)) (message_deleted messageId chatId) ;;;
         emit (ToRoom (roomOfReceiver message)) (message_deleted messageId chatId) ;;;
         emit (ToSocket (socketId socket)) (message_deleted messageId chatId)
     end)
    (fun error => emit (ToSocket (socketId socket))
                       (error_event "Error deleting message")).

(** [router.delete("/:id", auth, ...)]: the chat is the message's own.
    The removal of an uploaded file from disk is outside the store and is
    left out. *)
Definition delete_route (io : bool) (reqUser : User) (id : string) : M Response :=
  try_catch
    (let userId := user_id reqUser in
     message <- await (Message_findById id) ;;
     match message with
     | None => ret (mkResponse 404 false "Message not found" NoBody)
     | Some message =>
       if negb (sender message =? userId) then
         ret (mkResponse 403 false "Not authorized to delete this message" NoBody)
       else
         let chatId := chatId message in
         await (Message_deleteOne id) ;;;
         updateLastMessage chatId id ;;;
         match chatId with
         | Some c => if io then emit (ToRoom ("chat_" ++ c)) (message_deleted id c)
                     else ret tt
         | None => ret tt
         end ;;;
         ret (mkResponse 200 true "Message deleted" NoBody)
     end)
    (fun error => ret (mkResponse 500 false "Server error while deleting message" NoBody)).

(** ** Read receipts *)

(** [socket.on('mark_message_read', ...)] *)
Definition mark_message_read (messageId : string) : M unit :=
  try_catch
    (t <- now ;;
     message <- await (Message_markRead messageId t) ;;
     match message with
     | Some m => emit (ToRoom ("user_" ++ sender m)) (message_read (msg_id m) (readAt m))
     | None => ret tt
     end)
    (fun error => ret tt).

(** ** Presence *)

(** The body of [io.on('connection', ...)] up to the handler
    registrations.  The presence write is not awaited. *)
Definition connection (socket : Socket) : M unit :=
  t <- now ;;
  modify (fun w => set_activeUsers
    (<[userId socket := mkActiveUser (socketId socket) (user socket) t]> (activeUsers w)) w) ;;;
  t' <- now ;;
  User_setPresence (userId socket) true t' ;;;
  modify (fun w => set_joined (joined w ++ [(socketId socket, ("user_" ++ userId socket)%string)]) w) ;;;
  emit (BroadcastFrom (socketId socket))
       (user_online (userId socket) (username (user socket)) (avatar (user socket))).

(** [socket.on('disconnect', ...)] *)
Definition disconnect (socket : Socket) : M unit :=
  modify (fun w => set_activeUsers (delete (userId socket) (activeUsers w)) w) ;;;
  t <- now ;;
  await (User_setPresence (userId socket) false t) ;;;
  emit (BroadcastFrom (socketId socket))
       (user_offline (userId socket) (username (user socket))).

(** ** The reconciliation sweep: [POST /chats/cleanup] *)

(** [a.lastMessageAt || a.createdAt || 0] *)
Definition chatTime (c : Chat) : Z :=
  match lastMessageAt c with
  | Some t => t
  | None => match chat_createdAt c with
            | Some t => t
            | None => 0%Z
            end
  end.

(** The comparator given to [chats.sort]: [bTime - aTime]. *)
Definition byRecency (a b : Chat) : Z := (chatTime b - chatTime a)%Z.

(** [Array.prototype.sort(cmp)] is stable: an element stays before a later
    one unless the comparator is positive. *)
Fixpoint insertBy {A} (cmp : A -> A -> Z) (x : A) (l : list A) : list A :=
  match l with
  | [] => [x]
  | y :: l' => if (cmp x y <=? 0)%Z then x :: l else y :: insertBy cmp x l'
  end.

Fixpoint sortBy {A} (cmp : A -> A -> Z) (l : list A) : list A :=
  match l with
  | [] => []
  | x :: l' => insertBy cmp x (sortBy cmp l')
  end.

(** [duplicateChats]: a JS [Map] from pair key to an array of chats; it
    iterates in insertion order, hence an association list. *)
Fixpoint pushGroup (k : string) (c : Chat) (g : list (string * list Chat))
  : list (string * list Chat) :=
  match g with
  | [] => [(k, [c])]
  | (k', cs) :: g' =>
    if k' =? k then (k', cs ++ [c]) :: g' else (k', cs) :: pushGroup k c g'
  end.

Definition isNull {A} (p : option A) : bool :=
  match p with
  | None => true
  | Some _ => false
  end.

(** The first loop: orphans aside, the rest grouped by [participantsKey]. *)
Fixpoint classify (allChats : list (Chat * list (option User)))
         (orphanedChatIds : list ObjectId) (duplicateChats : list (string * list Chat))
  : list ObjectId * list (string * list Chat) :=
  match allChats with
  | [] => (orphanedChatIds, duplicateChats)
  | (chat, ps) :: rest =>
    if existsb isNull ps
    then classify rest (orphanedChatIds ++ [chat_id chat]) duplicateChats
    else classify rest orphanedChatIds
                  (pushGroup (participantsKey chat) chat duplicateChats)
  end.

(** The second loop: in each group of more than one chat, keep the first
    by recency, move the messages of the others to it, queue the others. *)
Fixpoint mergeGroups (groups : list (string * list Chat))
         (chatsToDeactivate : list ObjectId) (mergedChats : nat)
  : M (list ObjectId * nat) :=
  match groups with
  | [] => ret (chatsToDeactivate, mergedChats)
  | (_, cs) :: rest =>
    if (1 <? List.length cs)%nat then
      match sortBy byRecency cs with
      | keepChat :: others =>
        let duplicateChatIds := map chat_id others in
        await (Message_moveMany duplicateChatIds (chat_id keepChat)) ;;;
        mergeGroups rest (chatsToDeactivate ++ duplicateChatIds)
                    (mergedChats + (List.length cs - 1))%nat
      | [] => throw (typeError "Cannot read properties of undefined (reading '_id')")
      end
    else mergeGroups rest chatsToDeactivate mergedChats
  end.

(** [Chat.find({ isActive: true }).populate("participants", "_id")] *)
Definition Chat_findActive_populated : M (list (Chat * list (option User))) := fun w =>
  (inr (map (fun c => (c, flat_map (fun id => match findUser id (users w) with
                                              | Some u => [Some u]
                                              | None => []
                                              end) (participants c)))
            (List.filter isActive (chats w))), w).

(** A number as a template literal prints it. *)
Definition showNat (n : nat) : string := NilEmpty.string_of_uint (Nat.to_uint n).

Definition cleanup_route : M Response :=
  try_catch
    (allChats <- await Chat_findActive_populated ;;
     let classified := classify allChats [] [] in
     let orphanedChatIds := fst classified in
     let duplicateChats := snd classified in
     merged <- mergeGroups duplicateChats orphanedChatIds 0%nat ;;
     let chatsToDeactivate := fst merged in
     let mergedChats := snd merged in
     (if (0 <? List.length chatsToDeactivate)%nat
      then await (Chat_deactivateMany chatsToDeactivate)
      else ret tt) ;;;
     ret (mkResponse 200 true
                     ("Cleaned up " ++ showNat (List.length orphanedChatIds)
                      ++ " orphaned chats and merged " ++ showNat mergedChats
                      ++ " duplicate chats")
                     (CleanupBody (List.length orphanedChatIds) mergedChats
                                  (List.length chatsToDeactivate))))
    (fun error => ret (mkResponse 500 false "Server error while cleaning up chats" NoBody)).

(** ** Runs *)

(** The world in which the next awaited call executes, and the fault that
    call meets. *)
Definition settle (w : World) : World :=
  match sched w with
  | [] => w
  | t :: rest => envSteps (before t) (set_sched rest w)
  end.

Definition headFault (w : World) : option Error :=
  match sched w with
  | [] => None
  | t :: _ => fault t
  end.

(** The user an identity sent by a client resolves to, if any. *)
Definition resolveUser (id : string) (us : list User) : option User :=
  match castObjectId id with
  | Some oid => findUser oid us
  | None => None
  end.

(** The requests the server answers by writing to the store or to the
    registry.  (The chat list route reads; the deactivation it defers to
    [setImmediate] is the store operation [EnvDeactivateChats].) *)
Inductive Request :=
| OnConnection (socket : Socket)
| OnDisconnect (socket : Socket)
| OnSendMessage (socket : Socket) (receiverId content : string) (messageType : option string)
| OnMarkRead (messageId : string)
| OnDeleteMessage (socket : Socket) (messageId chatId : string)
| PostMessage (reqUser : User) (receiverId content : string) (messageType : option string)
| PostUpload (io : bool) (socketUrl : string) (reqUser : User)
             (receiverId : option string) (file : option UploadedFile)
| PostChatCreate (reqUser : User) (receiverId : string)
| DeleteMessage (io : bool) (reqUser : User) (id : string)
| PostCleanup.

Definition handle (r : Request) (w : World) : World :=
  match r with
  | OnConnection s => snd (connection s w)
  | OnDisconnect s => snd (disconnect s w)
  | OnSendMessage s r c t => snd (send_message s r c t w)
  | OnMarkRead id => snd (mark_message_read id w)
  | OnDeleteMessage s m c => snd (delete_message s m c w)
  | PostMessage u r c t => snd (post_message u r c t w)
  | PostUpload io url u r f => snd (post_upload io url u r f w)
  | PostChatCreate u r => snd (post_chat_create u r w)
  | DeleteMessage io u id => snd (delete_route io u id w)
  | PostCleanup => snd (cleanup_route w)
  end.

(** One step of the system: a request handled under some schedule of
    interference, or an operation of another client of the store. *)
Inductive step : World -> World -> Prop :=
| step_request (r : Request) (turns : list Turn) (w : World) :
    step w (handle r (set_sched turns w))
| step_env (op : EnvOp) (w : World) :
    step w (envStep op w).

Definition emptyWorld : World := mkWorld [] [] [] 0 0 ∅ [] [] [].

(** The worlds the system can get to from [w0]. *)
Inductive reachableFrom (w0 : World) : World -> Prop :=
| reach_init : reachableFrom w0 w0
| reach_step (w w' : World) : reachableFrom w0 w -> step w w' -> reachableFrom w0 w'.

(** The unique index on [participantsKey] holds. *)
Definition uniqueKeys (w : World) : Prop :=
  List.NoDup (map participantsKey (chats w)).

(** The active chats filed under a pair key. *)
Definition activeWithKey (k : string) (cs : list Chat) : list Chat :=
  List.filter (fun c => isActive c && (participantsKey c =? k)) cs.

(** ** Sample data *)

Module Sample.

Definition alice : ObjectId := "aaaaaaaaaaaaaaaaaaaaaaaa".
Definition bob : ObjectId := "bbbbbbbbbbbbbbbbbbbbbbbb".
Definition carol : ObjectId := "cccccccccccccccccccccccc".

Definition uAlice : User := mkUser alice "alice" "a.png" false None.
Definition uBob : User := mkUser bob "bob" "b.png" false None.

Definition sAlice : Socket := mkSocket "s1" alice uAlice.
Definition sAlice2 : Socket := mkSocket "s2" alice uAlice.
Definition sBob : Socket := mkSocket "s3" bob uBob.


(** A duplicate left by legacy data: a second active chat of alice and
    bob, last used later than [chatAB], with one message of its own; and
    an unrelated chat of alice and carol. *)
Definition chatAB2 : Chat :=
  mkChat "0000000000000000000000c2" [alice; bob]
         "aaaaaaaaaaaaaaaaaaaaaaaa_bbbbbbbbbbbbbbbbbbbbbbbb"
         (Some "0000000000000000000000e3") (Some 2500) true (Some 950).
Definition chatAC : Chat :=
  mkChat "0000000000000000000000c3" [alice; carol]
         "aaaaaaaaaaaaaaaaaaaaaaaa_cccccccccccccccccccccccc"
         None (Some 100) true (Some 100).
Definition m3 : Message :=
  mkMessage "0000000000000000000000e3" alice (Some bob) "again" "text" false None
            (Some "0000000000000000000000c2") false 2500.

(** Two users, no chat yet. *)
Definition fresh : World := mkWorld [uAlice; uBob] [] [] 1000 1 ∅ [] [] [].

Definition keyAB : string := PairKey.participantsKey alice bob.

Definition chatAB : Chat :=
  mkChat "0000000000000000000000c1" [alice; bob] keyAB
         (Some "0000000000000000000000e2") (Some 2000) true (Some 900).

Definition m1 : Message :=
  mkMessage "0000000000000000000000e1" alice (Some bob) "hi" "text" false None
            (Some "0000000000000000000000c1") false 1500.
Definition m2 : Message :=
  mkMessage "0000000000000000000000e2" bob (Some alice) "yo" "text" false None
            (Some "0000000000000000000000c1") false 2000.

(** One chat between alice and bob holding [m1] then [m2]; the chat points
    at [m2]. *)
Definition talking : World :=
  mkWorld [uAlice; uBob] [chatAB] [m1; m2] 3000 16 ∅ [] [] [].

Definition duplicated : World :=
  mkWorld [uAlice; uBob] [chatAB; chatAC; chatAB2] [m1; m2; m3] 3000 16 ∅ [] [] [].

(** The store seeded from nothing: both users registered, time passed. *)
Definition seeded : World :=
  envStep (EnvTick 1000)
    (envStep (EnvInsertUser uBob) (envStep (EnvInsertUser uAlice) emptyWorld)).

(** The chat a concurrent caller acting for bob builds for the same pair. *)
Definition bobsChat : Chat :=
  mkChat "0000000000000000000000b1" [bob; alice] "" None (Some 1000) true None.

(** A race: alice's send looks the chat up and misses; bob's creation
    lands while alice's own [chat.save()] is in flight. *)
Definition raceTurns : list Turn :=
  [mkTurn [] None; mkTurn [] None; mkTurn [EnvInsertChat bobsChat] None].

Definition raced : World :=
  handle (OnSendMessage sAlice bob "hi" None) (set_sched raceTurns seeded).

(** An anomaly: bob's chat lands during alice's insert and is removed
    again before she re-reads. *)
Definition anomalyTurns : list Turn :=
  [mkTurn [] None; mkTurn [] None; mkTurn [EnvInsertChat bobsChat] None;
   mkTurn [EnvRemoveChat "0000000000000000000000b1"] None].

(** The same race seen from the resolver: the world in which alice's
    resolution starts, and the world her failed insert leaves. *)
Definition lostRace : World := set_sched (tl raceTurns) seeded.

Definition afterConflict : World := snd (createChat alice bob (settle lostRace)).

(** Bob's chat as the store holds it once his creation has landed. *)
Definition bobsStoredChat : Chat :=
  mkChat "0000000000000000000000b1" [alice; bob] keyAB None (Some 1000) true
         (Some 1000).

(** Bob's message [m2] marked read once, then again a second later. *)
Definition readOnce : World :=
  snd (mark_message_read "0000000000000000000000e2" talking).
Definition readTwice : World :=
  snd (mark_message_read "0000000000000000000000e2" (envStep (EnvTick 1000) readOnce)).

(** Alice connected from two devices; then the first one disconnects. *)
Definition twoSessions : World := snd (connection sAlice2 (snd (connection sAlice fresh))).
Definition oneLeft : World := snd (disconnect sAlice twoSessions).


(** Carol's account is gone from the store, her connection is still open. *)
Definition uCarol : User := mkUser carol "carol" "c.png" true None.

End Sample.








(** *** The sweep, written out for a quiet store

    What the two loops of [cleanup_route] compute from the active chats
    and the messages; the lemmas below tie them to the route. *)

Definition groupsOf (cs : list Chat) : list (string * list Chat) :=
  fold_left (fun g c => pushGroup (participantsKey c) c g) (List.filter isActive cs) [].

(** The chats of a group that are queued for deactivation, and the
    identity of the one kept. *)
Definition dupIdsOf (cs : list Chat) : list ObjectId :=
  if (1 <? List.length cs)%nat then map chat_id (tl (sortBy byRecency cs)) else [].

Definition keepIdOf (cs : list Chat) : ObjectId :=
  match sortBy byRecency cs with
  | keepChat :: _ => chat_id keepChat
  | [] => ""
  end.

Definition sweepMessages (groups : list (string * list Chat)) (ms : list Message)
  : list Message :=
  fold_left (fun ms g => map (moveOne (dupIdsOf (snd g)) (keepIdOf (snd g))) ms)
            groups ms.

(** What the second loop makes of one message. *)
Definition sweepOne (groups : list (string * list Chat)) (m : Message) : Message :=
  fold_left (fun m g => moveOne (dupIdsOf (snd g)) (keepIdOf (snd g)) m) groups m.

Definition groupOf (k : string) (g : list (string * list Chat)) : list Chat :=
  match List.find (fun p => fst p =? k) g with
  | Some p => snd p
  | None => []
  end.

(** One run of the sweep on a world. *)
Definition sweep (w : World) : World := snd (cleanup_route w).

Definition droppedOf (c1 c2 : Chat) : Chat :=
  if (chatTime c1 <? chatTime c2)%Z then c1 else c2.

(** Two successive [mark_message_read] calls for the same message, the
    second [ms] milliseconds after the first: the world after each. *)
Definition markReadTwice (messageId : string) (ms : N) (w : World) : World * World :=
  let w1 := snd (mark_message_read messageId w) in
  (w1, snd (mark_message_read messageId (envStep (EnvTick ms) w1))).

(** * Further handlers *)

(** ** The handshake: [io.use(async (socket, next) => ...)] *)

Section Handshake.

(** [jwt.verify(token, process.env.JWT_SECRET).userId]: the identity a
    valid token carries, or the error [verify] throws. *)
Variable jwt_verify : string -> Error + string.

(** What [next] is called with: an error message, or nothing, the socket
    then carrying [userId] and [user]. *)
Definition authenticate (sid : string) (token : option string) : M (string + Socket) :=
  try_catch
    (match token with
     | None | Some "" => ret (inl "Authentication error: No token provided")
     | Some t =>
       match jwt_verify t with
       | inl e => throw e
       | inr decodedUserId =>
         found <- await (User_findById decodedUserId) ;;
         match found with
         | None => ret (inl "Authentication error: User not found")
         | Some u => ret (inr (mkSocket sid (user_id u) u))
         end
       end
     end)
    (fun error => ret (inl "Authentication error: Invalid token")).

End Handshake.

(** ** Chat rooms: [join_chat], [leave_chat] *)

(** The event the handler emits back to the calling socket. *)
Inductive RoomReply :=
| joined_chat (chatId : string)
| left_chat (chatId : string)
| room_error (message : string).

(** [Chat.findOne({ _id: chatId, participants: userId, isActive: true })] *)
Definition Chat_findOne_activeMember (chatId : string) (uid : ObjectId)
  : M (option Chat) := fun w =>
  match castObjectId chatId with
  | None => (inl castError, w)
  | Some oid =>
    (inr (List.find (fun c => (chat_id c =? oid) && memId uid (participants c)
                              && isActive c) (chats w)), w)
  end.

(** [Chat.findOne({ _id: chatId, participants: userId })] *)
Definition Chat_findOne_member (chatId : string) (uid : ObjectId)
  : M (option Chat) := fun w =>
  match castObjectId chatId with
  | None => (inl castError, w)
  | Some oid =>
    (inr (List.find (fun c => (chat_id c =? oid) && memId uid (participants c))
                    (chats w)), w)
  end.

Definition inRoom (sid room : string) (p : string * string) : bool :=
  (fst p =? sid) && (snd p =? room).

(** [socket.join(room)]: the rooms of a socket form a set. *)
Definition joinRoom (sid room : string) (w : World) : World :=
  if existsb (inRoom sid room) (joined w) then w
  else set_joined (joined w ++ [(sid, room)]) w.

(** [socket.leave(room)] *)
Definition leaveRoom (sid room : string) (w : World) : World :=
  set_joined (List.filter (fun p => negb (inRoom sid room p)) (joined w)) w.

(** [socket.on('join_chat', ...)] *)
Definition join_chat (socket : Socket) (chatId : string) : M RoomReply :=
  try_catch
    (chat <- await (Chat_findOne_activeMember chatId (userId socket)) ;;
     match chat with
     | None => ret (room_error "You are not authorized to join this chat")
     | Some _ =>
       modify (joinRoom (socketId socket) ("chat_" ++ chatId)) ;;;
       ret (joined_chat chatId)
     end)
    (fun error => ret (room_error "Error joining chat")).

(** [socket.on('leave_chat', ...)] *)
Definition leave_chat (socket : Socket) (chatId : string) : M RoomReply :=
  modify (leaveRoom (socketId socket) ("chat_" ++ chatId)) ;;;
  ret (left_chat chatId).

(** ** Message history: [GET /:chatId] *)

Record PopulatedMessage := mkPopulatedMessage {
  pm_message : Message;
  pm_sender : option Profile;
  pm_receiver : option Profile
}.

Inductive HistoryReply :=
| HistoryOk (messages : list PopulatedMessage)
| HistoryFail (status : Z) (message : string).

Definition profileOf (us : list User) (id : option ObjectId) : option Profile :=
  match id with
  | Some i => option_map (fun u => mkProfile (user_id u) (username u) (avatar u))
                         (findUser i us)
  | None => None
  end.

Definition populateMessage (us : list User) (m : Message) : PopulatedMessage :=
  mkPopulatedMessage m (profileOf us (Some (sender m))) (profileOf us (receiver m)).

(** The comparator of [.sort({ createdAt: 1 })]. *)
Definition byAge (a b : Message) : Z := (msg_createdAt a - msg_createdAt b)%Z.

Definition messagesOfChat (cid : ObjectId) (ms : list Message) : list Message :=
  List.filter (fun m => optEqb (chatId m) cid) ms.

(** [Message.find({ chatId }).populate(...).populate(...).sort({ createdAt: 1 })] *)
Definition Message_findByChat (cid : string) : M (list PopulatedMessage) := fun w =>
  match castObjectId cid with
  | None => (inl castError, w)
  | Some oid =>
    (inr (map (populateMessage (users w))
              (sortBy byAge (messagesOfChat oid (messages w)))), w)
  end.

(** [router.get("/:chatId", auth, ...)] *)
Definition history_route (reqUser : User) (chatId : string) : M HistoryReply :=
  try_catch
    (chat <- await (Chat_findOne_member chatId (user_id reqUser)) ;;
     match chat with
     | None => ret (HistoryFail 404 "Chat not found or access denied")
     | Some _ =>
       found <- await (Message_findByChat chatId) ;;
       ret (HistoryOk found)
     end)
    (fun error => ret (HistoryFail 500 "Server error while fetching messages")).

(** ** The chat list: [GET /chats/list] *)

Record ListedMessage := mkListedMessage {
  lm_content : string;
  lm_timestamp : Date;
  lm_sender : ObjectId
}.

(** An element of the answer: [{ _id, chatId, user, lastMessage, unread: 0 }]. *)
Record ListEntry := mkListEntry {
  le_chatId : ObjectId;
  le_user : User;
  le_lastMessage : option ListedMessage
}.

(** A chat as the query returns it, both paths populated. *)
Record ListedChat := mkListedChat {
  lc_chat : Chat;
  lc_participants : list (option User);
  lc_lastMessage : option Message
}.

Inductive ChatListReply :=
| ChatListOk (chats : list ListEntry)
| ChatListFail (status : Z) (message : string).

(** The comparator of [.sort({ lastMessageAt: -1 })]; a missing value
    orders below every date. *)
Definition byLastMessageAt (a b : Chat) : Z :=
  match lastMessageAt a, lastMessageAt b with
  | Some x, Some y => (y - x)%Z
  | Some _, None => (-1)%Z
  | None, Some _ => 1%Z
  | None, None => 0%Z
  end.

Definition populateListed (us : list User) (ms : list Message) (c : Chat) : ListedChat :=
  mkListedChat c
    (flat_map (fun id => match findUser id us with
                         | Some u => [Some u]
                         | None => []
                         end) (participants c))
    match lastMessage c with
    | Some id => findMessage id ms
    | None => None
    end.

Definition isMine (uid : ObjectId) (c : Chat) : bool :=
  memId uid (participants c) && isActive c.

(** [Chat.find({ participants: uid, isActive: true }).populate(...)
    .populate("lastMessage").sort({ lastMessageAt: -1 })] *)
Definition Chat_findMine (uid : ObjectId) : M (list ListedChat) := fun w =>
  (inr (map (populateListed (users w) (messages w))
            (sortBy byLastMessageAt (List.filter (isMine uid) (chats w)))), w).

(** [chat.participants.filter(p => p !== null)] *)
Definition validParticipants (ps : list (option User)) : list User :=
  flat_map (fun p => match p with
                     | Some u => [u]
                     | None => []
                     end) ps.

(** The object stored in [userChatMap] for a chat and its counterpart. *)
Definition entryOf (chat : ListedChat) (otherParticipant : User) : ListEntry :=
  mkListEntry (chat_id (lc_chat chat)) otherParticipant
    (option_map (fun m => mkListedMessage (content m) (msg_createdAt m) (sender m))
                (lc_lastMessage chat)).

(** [existingChat.lastMessage?.timestamp || existingChat.createdAt || 0]:
    the stored object has no [createdAt]. *)
Definition existingTime (e : ListEntry) : Z :=
  match le_lastMessage e with
  | Some lm => lm_timestamp lm
  | None => 0%Z
  end.

(** [chat.lastMessage?.createdAt || chat.createdAt || 0] *)
Definition currentTime (chat : ListedChat) : Z :=
  match lc_lastMessage chat with
  | Some m => msg_createdAt m
  | None => match chat_createdAt (lc_chat chat) with
            | Some t => t
            | None => 0%Z
            end
  end.

(** [Map.prototype.get] and [set] on [userChatMap]; [set] on a present
    key keeps the key's place. *)
Definition mapGet (k : string) (m : list (string * ListEntry)) : option ListEntry :=
  option_map snd (List.find (fun p => fst p =? k) m).

Fixpoint mapSet (k : string) (v : ListEntry) (m : list (string * ListEntry))
  : list (string * ListEntry) :=
  match m with
  | [] => [(k, v)]
  | (k', v') :: m' => if k' =? k then (k', v) :: m' else (k', v') :: mapSet k v m'
  end.

(** The loop over the chats. *)
Fixpoint listLoop (me : ObjectId) (chats : list ListedChat)
         (chatsToCleanup : list ObjectId) (userChatMap : list (string * ListEntry))
  : list ObjectId * list (string * ListEntry) :=
  match chats with
  | [] => (chatsToCleanup, userChatMap)
  | chat :: rest =>
    match List.find (fun p => negb (user_id p =? me))
                    (validParticipants (lc_participants chat)) with
    | None =>
      listLoop me rest (chatsToCleanup ++ [chat_id (lc_chat chat)]) userChatMap
    | Some otherParticipant =>
      let userId := user_id otherParticipant in
      match mapGet userId userChatMap with
      | Some existingChat =>
        if (existingTime existingChat <? currentTime chat)%Z
        then listLoop me rest chatsToCleanup
                      (mapSet userId (entryOf chat otherParticipant) userChatMap)
        else listLoop me rest (chatsToCleanup ++ [chat_id (lc_chat chat)]) userChatMap
      | None =>
        listLoop me rest chatsToCleanup
                 (mapSet userId (entryOf chat otherParticipant) userChatMap)
      end
    end
  end.

(** The comparator of the final sort: [bTime - aTime] over
    [lastMessage?.timestamp || 0]. *)
Definition byEntryTime (a b : ListEntry) : Z := (existingTime b - existingTime a)%Z.

(** The callback given to [setImmediate]; its failure is only logged. *)
Definition deferredCleanup (chatsToCleanup : list ObjectId) : M unit :=
  try_catch (await (Chat_deactivateMany chatsToCleanup)) (fun cleanupError => ret tt).

(** [router.get("/chats/list", auth, ...)].  The deferred callback runs
    once the answer is out; its effect is taken here with the request. *)
Definition chat_list_route (reqUser : User) : M ChatListReply :=
  try_catch
    (found <- await (Chat_findMine (user_id reqUser)) ;;
     let looped := listLoop (user_id reqUser) found [] [] in
     let chatsToCleanup := fst looped in
     let deduplicatedChats := sortBy byEntryTime (map snd (snd looped)) in
     (if (0 <? List.length chatsToCleanup)%nat
      then deferredCleanup chatsToCleanup
      else ret tt) ;;;
     ret (ChatListOk deduplicatedChats))
    (fun error => ret (ChatListFail 500 "Server error while fetching chat list")).

(** ** The schema's virtual [chatId] *)

Definition virtualChatId (c : Chat) : string :=
  PairKey.join "_" (PairKey.sort (participants c)).

(** ** Helpers for stating the further properties *)

(** The message an identifier sent by a client resolves to, if any. *)
Definition resolveMessage (id : string) (ms : list Message) : option Message :=
  match castObjectId id with
  | Some oid => findMessage oid ms
  | None => None
  end.


(** The chat document a first send between [a] and [b] creates in world
    [w], and the message then stored under it. *)
Definition createdChat (w : World) (a b : ObjectId) : Chat :=
  mkChat (oidOfCounter (oidCounter w)) (PairKey.sort [a; b])
         (PairKey.join "_" (PairKey.sort [a; b])) None (Some (clock w)) true
         (Some (clock w)).



(** What the chat-list loop keeps true of [userChatMap]: one entry per
    key, each filed under the identity of its user, who is not the
    requester. *)
Definition mapOk (me : ObjectId) (m : list (string * ListEntry)) : Prop :=
  List.NoDup (map fst m)
  /\ forall p, In p m -> fst p = user_id (le_user (snd p)) /\ fst p <> me.

(** The entries of a chat-list answer. *)
Definition entriesOf (r : (Error + ChatListReply) * World) : list ListEntry :=
  match fst r with
  | inr (ChatListOk entries) => entries
  | _ => []
  end.

(** * Properties *)

(** ** Pair key *)

Section PairKeyFacts.

Import PairKey.

Lemma sort_pair (a b : string) :
  sort [a; b] = if String.leb a b then [a; b] else [b; a].
Proof. reflexivity. Qed.

Lemma sort_pair_swap (a b : string) : sort [a; b] = sort [b; a].
Proof.
  rewrite !sort_pair.
  destruct (String.leb a b) eqn:Hab, (String.leb b a) eqn:Hba; trivial.
  - now rewrite (String.leb_antisym _ _ Hab Hba).
  - destruct (String.leb_total a b); congruence.
Qed.

Lemma sortedPair_ordered (a b : string) :
  String.leb (fst (sortedPair a b)) (snd (sortedPair a b)) = true.
Proof.
  unfold sortedPair.
  destruct (String.leb a b) eqn:Hab; simpl; trivial.
  destruct (String.leb_total a b); congruence.
Qed.

Lemma participantsKey_sortedPair (a b : string) :
  participantsKey a b
  = (fst (sortedPair a b) ++ "_" ++ snd (sortedPair a b))%string.
Proof.
  unfold participantsKey, sortedParticipants, sortedPair, join.
  rewrite sort_pair. now destruct (String.leb a b).
Qed.

End PairKeyFacts.

Example pairKey_alice_bob :
  PairKey.participantsKey Sample.bob Sample.alice
  = "aaaaaaaaaaaaaaaaaaaaaaaa_bbbbbbbbbbbbbbbbbbbbbbbb"
  /\ PairKey.participantsKey Sample.alice Sample.bob
     = "aaaaaaaaaaaaaaaaaaaaaaaa_bbbbbbbbbbbbbbbbbbbbbbbb".
Proof. split; reflexivity. Qed.

(** C6.  The pair key of (a, b) equals the pair key of (b, a); both are the
    lexicographically ordered pair joined with ['_'], and the schema's
    validate hook files a chat created for either order under that key. *)
Theorem pairKey_commutative (a b : ObjectId) :
  PairKey.participantsKey a b = PairKey.participantsKey b a
  /\ PairKey.participantsKey a b
     = (fst (PairKey.sortedPair a b) ++ "_" ++ snd (PairKey.sortedPair a b))%string
  /\ String.leb (fst (PairKey.sortedPair a b)) (snd (PairKey.sortedPair a b)) = true
  /\ (PairKey.sortedPair a b = (a, b) \/ PairKey.sortedPair a b = (b, a))
  /\ PairKey.keyOfParticipants [a; b] = PairKey.participantsKey a b
  /\ PairKey.keyOfParticipants [b; a] = PairKey.participantsKey a b.
Proof.
  repeat split.
  - unfold PairKey.participantsKey, PairKey.sortedParticipants.
    now rewrite sort_pair_swap.
  - apply participantsKey_sortedPair.
  - apply sortedPair_ordered.
  - unfold PairKey.sortedPair. destruct (String.leb a b); auto.
  - unfold PairKey.keyOfParticipants, PairKey.participantsKey,
      PairKey.sortedParticipants.
    now rewrite sort_pair_swap.
Qed.

(** ** Reasoning about handlers *)

Lemma await_settle {A} (m : M A) (w : World) :
  await m w = match headFault w with
              | Some e => (inl e, settle w)
              | None => m (settle w)
              end.
Proof.
  unfold await, headFault, settle. now destruct (sched w) as [|t rest].
Qed.

Lemma await_quiet {A} (m : M A) (w : World) :
  sched w = [] -> await m w = m w.
Proof. intros H. unfold await. now rewrite H. Qed.

Lemma settle_quiet (w : World) : sched w = [] -> settle w = w.
Proof. intros H. unfold settle. now rewrite H. Qed.

Lemma headFault_quiet (w : World) : sched w = [] -> headFault w = None.
Proof. intros H. unfold headFault. now rewrite H. Qed.

(** A handler preserves a property of the world when the world it leaves
    has it whenever the world it started in does, whatever it returns. *)
Definition preserves (P : World -> Prop) {A} (m : M A) : Prop :=
  forall w, P w -> P (snd (m w)).

Section Preservation.

Variable P : World -> Prop.

Lemma preserves_ret {A} (a : A) : preserves P (ret a).
Proof. now intros w H. Qed.

Lemma preserves_throw {A} (e : Error) : preserves P (@throw A e).
Proof. now intros w H. Qed.

Lemma preserves_bind {A B} (m : M A) (k : A -> M B) :
  preserves P m -> (forall a, preserves P (k a)) -> preserves P (bind m k).
Proof.
  intros Hm Hk w H. unfold bind. specialize (Hm w H).
  destruct (m w) as [[e|a] w']; simpl in *; trivial. now apply Hk.
Qed.

Lemma preserves_try_catch {A} (m : M A) (h : Error -> M A) :
  preserves P m -> (forall e, preserves P (h e)) -> preserves P (try_catch m h).
Proof.
  intros Hm Hh w H. unfold try_catch. specialize (Hm w H).
  destruct (m w) as [[e|a] w']; simpl in *; trivial. now apply Hh.
Qed.

Lemma preserves_modify (f : World -> World) :
  (forall w, P w -> P (f w)) -> preserves P (modify f).
Proof. intros Hf w H. now apply Hf. Qed.

(** At a suspension point the property must survive what the schedule
    lets happen. *)
Lemma preserves_await {A} (m : M A) :
  (forall w, P w -> P (settle w)) -> preserves P m -> preserves P (await m).
Proof.
  intros Hs Hm w H. rewrite await_settle.
  destruct (headFault w); simpl; [now apply Hs|]. apply Hm. now apply Hs.
Qed.

End Preservation.

(** *** Frame facts about the lists *)

Lemma find_updateFirst_same {A} (p : A -> bool) (f : A -> A) (l : list A) :
  (forall x, p (f x) = p x) ->
  List.find p (updateFirst p f l) = option_map f (List.find p l).
Proof.
  intros Hp. induction l as [|x l IH]; simpl; trivial.
  destruct (p x) eqn:Hx; simpl.
  - now rewrite Hp, Hx.
  - now rewrite Hx.
Qed.

Lemma updateFirst_length {A} (p : A -> bool) (f : A -> A) (l : list A) :
  List.length (updateFirst p f l) = List.length l.
Proof.
  induction l as [|x l IH]; simpl; trivial.
  destruct (p x); simpl; congruence.
Qed.

Lemma updateFirst_none {A} (p : A -> bool) (f : A -> A) (l : list A) :
  List.find p l = None -> updateFirst p f l = l.
Proof.
  induction l as [|x l IH]; simpl; trivial.
  destruct (p x); [discriminate|]. intros H. now rewrite IH.
Qed.


Lemma removeFirst_incl {A} (p : A -> bool) (l : list A) (x : A) :
  In x (removeFirst p l) -> In x l.
Proof.
  induction l as [|y l IH]; simpl; trivial.
  destruct (p y); simpl; intuition.
Qed.

Lemma NoDup_map_removeFirst {A B} (g : A -> B) (p : A -> bool) (l : list A) :
  List.NoDup (map g l) -> List.NoDup (map g (removeFirst p l)).
Proof.
  induction l as [|y l IH]; simpl; trivial.
  intros H. inversion H as [|? ? Hn Hd]; subst.
  destruct (p y); simpl; trivial.
  constructor; [|now apply IH].
  intros Hin. apply Hn. apply in_map_iff in Hin as (z & Hz & Hin).
  apply in_map_iff. exists z. split; trivial. eapply removeFirst_incl; eauto.
Qed.

(** ** The unique index is an invariant of the store *)

Lemma existsb_key_false (k : string) (l : list Chat) :
  existsb (fun x => participantsKey x =? k) l = false ->
  ~ In k (map participantsKey l).
Proof.
  induction l as [|x l IH]; simpl; [tauto|].
  intros H. apply orb_false_iff in H as [Hx Hl].
  apply String.eqb_neq in Hx. intros [E|Hin]; [congruence|]. now apply IH.
Qed.

Lemma keys_updateFirst_in (p : Chat -> bool) (f : Chat -> Chat) (k' y : string)
      (l : list Chat) :
  (forall x, participantsKey (f x) = k') ->
  In y (map participantsKey (updateFirst p f l)) ->
  In y (map participantsKey l) \/ y = k'.
Proof.
  intros Hf. induction l as [|x l IH]; simpl; [tauto|].
  destruct (p x); simpl.
  - rewrite Hf. intuition.
  - intuition.
Qed.

Lemma NoDup_keys_updateFirst (p : Chat -> bool) (f : Chat -> Chat) (k' : string)
      (d : Chat) (l : list Chat) :
  List.find p l = Some d ->
  (forall x, participantsKey (f x) = k') ->
  participantsKey d = k' \/ ~ In k' (map participantsKey l) ->
  List.NoDup (map participantsKey l) ->
  List.NoDup (map participantsKey (updateFirst p f l)).
Proof.
  intros Hfind Hf. induction l as [|x l IH]; simpl; trivial.
  simpl in Hfind. intros Hk Hnd. inversion Hnd as [|? ? Hn Hd]; subst.
  destruct (p x) eqn:Hx; simpl.
  - injection Hfind as ->. rewrite Hf. destruct Hk as [<-|Hk]; trivial.
    constructor; trivial. simpl in Hk. tauto.
  - assert (Hne : participantsKey x <> k').
    { destruct Hk as [<-|Hk]; [|simpl in Hk; tauto].
      intros E. apply Hn. rewrite E. apply in_map.
      apply find_some in Hfind. tauto. }
    constructor.
    + intros Hin. apply (keys_updateFirst_in p f k') in Hin as [Hin|E]; auto.
    + apply IH; trivial. destruct Hk as [Hk|Hk]; [now left|right].
      simpl in Hk. tauto.
Qed.

Lemma uniqueKeys_same (w w' : World) :
  chats w' = chats w -> uniqueKeys w -> uniqueKeys w'.
Proof. unfold uniqueKeys. now intros ->. Qed.

Lemma preserves_same_chats {A} (m : M A) :
  (forall w, chats (snd (m w)) = chats w) -> preserves uniqueKeys m.
Proof. intros H w Hw. eapply uniqueKeys_same; eauto. Qed.

Lemma NoDup_snoc {A} (x : A) (l : list A) :
  List.NoDup l -> ~ In x l -> List.NoDup (l ++ [x]).
Proof.
  induction l as [|y l IH]; simpl; intros Hnd Hx.
  - constructor; [simpl; tauto | constructor].
  - inversion Hnd as [|? ? Hn Hd]; subst. constructor.
    + rewrite in_app_iff. simpl. intuition congruence.
    + apply IH; tauto.
Qed.

Lemma existsb_false_In {A} (f : A -> bool) (l : list A) (x : A) :
  existsb f l = false -> In x l -> f x = false.
Proof.
  induction l as [|y l IH]; simpl; [tauto|].
  intros H [->|Hin]; apply orb_false_iff in H as [Hy Hl]; auto.
Qed.

Lemma Chat_save_new_unique (c : Chat) : preserves uniqueKeys (Chat_save_new c).
Proof.
  intros w H. unfold Chat_save_new.
  destruct (preValidate c) as [e|c']; trivial.
  match goal with |- context [existsb ?f ?l] => destruct (existsb f l) eqn:Hex end;
    trivial.
  unfold uniqueKeys in *. simpl. rewrite map_app. simpl.
  apply NoDup_snoc; trivial.
  intros Hin. apply in_map_iff in Hin as (d & Hd & Hin).
  apply (existsb_false_In _ _ d) in Hex; trivial.
  apply orb_false_iff in Hex as [Hk _].
  apply String.eqb_neq in Hk. simpl in Hk. congruence.
Qed.

Lemma Chat_save_unique (c : Chat) : preserves uniqueKeys (Chat_save c).
Proof.
  intros w H. unfold Chat_save.
  destruct (preValidate c) as [e|c']; trivial.
  destruct (findChatById (chat_id c') (chats w)) as [d|] eqn:Hd; trivial.
  match goal with |- context [if ?b then _ else _] => destruct b eqn:Hb end; trivial.
  unfold uniqueKeys in *. simpl.
  eapply (NoDup_keys_updateFirst _ _ (participantsKey c') d); eauto.
  apply andb_false_iff in Hb as [Hb|Hb].
  - left. apply negb_false_iff, String.eqb_eq in Hb. exact Hb.
  - right. now apply existsb_key_false.
Qed.

Lemma Chat_deactivateMany_unique (ids : list ObjectId) :
  preserves uniqueKeys (Chat_deactivateMany ids).
Proof.
  intros w H. unfold uniqueKeys in *. simpl. unfold deactivateAll.
  rewrite map_map. erewrite map_ext; [exact H|].
  intros c. now destruct (memId (chat_id c) ids).
Qed.

Lemma Message_save_chats (m : Message) (w : World) :
  chats (snd (Message_save m w)) = chats w.
Proof.
  unfold Message_save. destruct (validateMessage m); trivial.
  now match goal with |- context [if ?b then _ else _] => destruct b end.
Qed.

Lemma envStep_unique (op : EnvOp) (w : World) :
  uniqueKeys w -> uniqueKeys (envStep op w).
Proof.
  intros H. destruct op; simpl; trivial.
  - now destruct (existsb _ _).
  - now apply Chat_save_new_unique.
  - unfold uniqueKeys in *. simpl. now apply NoDup_map_removeFirst.
  - now apply Chat_deactivateMany_unique.
  - eapply uniqueKeys_same; [apply Message_save_chats | trivial].
Qed.

Lemma envSteps_unique (ops : list EnvOp) (w : World) :
  uniqueKeys w -> uniqueKeys (envSteps ops w).
Proof.
  revert w. induction ops as [|op ops IH]; simpl; trivial.
  intros w H. apply IH. now apply envStep_unique.
Qed.

Lemma settle_unique (w : World) : uniqueKeys w -> uniqueKeys (settle w).
Proof.
  intros H. unfold settle. destruct (sched w); trivial.
  now apply envSteps_unique.
Qed.

Create HintDb pres.

#[local] Hint Resolve preserves_ret preserves_throw settle_unique
  Chat_save_new_unique Chat_save_unique Chat_deactivateMany_unique : pres.

(** Breaks a handler down along its binds, catches, awaits and branches. *)
Ltac pres_step :=
  match goal with
  | |- preserves _ (bind _ _) => apply preserves_bind; [|intros ?]
  | |- preserves _ (try_catch _ _) => apply preserves_try_catch; [|intros ?]
  | |- preserves _ (await _) => apply preserves_await; [apply settle_unique|]
  | |- preserves _ (ret _) => apply preserves_ret
  | |- preserves _ (throw _) => apply preserves_throw
  | |- preserves _ (modify _) => apply preserves_modify; intros ? ?; assumption
  | |- preserves _ (emit _ _) => apply preserves_modify; intros ? ?; assumption
  | |- preserves _ (let _ := _ in _) => cbv zeta
  | |- preserves _ (match ?x with _ => _ end) => destruct x
  | |- preserves _ (if ?x then _ else _) => destruct x
  | |- preserves uniqueKeys _ =>
    first [ solve [auto with pres]
          | apply preserves_same_chats; intros ?; reflexivity ]
  end.

Ltac pres := repeat pres_step.

Lemma User_findById_unique id : preserves uniqueKeys (User_findById id).
Proof.
  apply preserves_same_chats; intros w.
  unfold User_findById. now destruct (castObjectId id).
Qed.

Lemma Message_findById_unique id : preserves uniqueKeys (Message_findById id).
Proof.
  apply preserves_same_chats; intros w.
  unfold Message_findById. now destruct (castObjectId id).
Qed.

Lemma Message_deleteOne_unique id : preserves uniqueKeys (Message_deleteOne id).
Proof.
  apply preserves_same_chats; intros w.
  unfold Message_deleteOne. now destruct (castObjectId id).
Qed.

Lemma Message_markRead_unique id t : preserves uniqueKeys (Message_markRead id t).
Proof.
  apply preserves_same_chats; intros w.
  unfold Message_markRead. destruct (castObjectId id); trivial.
  now destruct (findMessage _ _).
Qed.

Lemma Message_findLatest_unique id : preserves uniqueKeys (Message_findLatest id).
Proof.
  apply preserves_same_chats; intros w.
  unfold Message_findLatest. now destruct (castObjectId id).
Qed.

Lemma Chat_findById_populated_unique id :
  preserves uniqueKeys (Chat_findById_populated id).
Proof.
  apply preserves_same_chats; intros w.
  unfold Chat_findById_populated. destruct id; trivial.
  now destruct (castObjectId _).
Qed.

Lemma Message_save_unique m : preserves uniqueKeys (Message_save m).
Proof. apply preserves_same_chats, Message_save_chats. Qed.

#[local] Hint Resolve User_findById_unique Message_findById_unique
  Message_deleteOne_unique Message_markRead_unique Message_findLatest_unique
  Chat_findById_populated_unique Message_save_unique : pres.

Lemma createChat_unique a b : preserves uniqueKeys (createChat a b).
Proof. unfold createChat, newObjectId, now. pres. Qed.

Lemma resolveChat_unique a b : preserves uniqueKeys (resolveChat a b).
Proof.
  unfold resolveChat, Chat_findOne. pres; try apply createChat_unique; pres.
Qed.

Lemma resolveChatOrNull_unique a b : preserves uniqueKeys (resolveChatOrNull a b).
Proof.
  unfold resolveChatOrNull, Chat_findOne. pres; try apply createChat_unique; pres.
Qed.

Lemma persistMessage_unique s r c t chat :
  preserves uniqueKeys (persistMessage s r c t chat).
Proof. unfold persistMessage, newMessage, newObjectId, now. pres. Qed.

#[local] Hint Resolve createChat_unique resolveChat_unique
  resolveChatOrNull_unique persistMessage_unique : pres.

Lemma findOther_unique s ps : preserves uniqueKeys (findOther s ps).
Proof.
  induction ps as [|[p|] ps IH]; simpl; pres.
Qed.

Lemma updateLastMessage_unique c m : preserves uniqueKeys (updateLastMessage c m).
Proof. unfold updateLastMessage. pres. Qed.

Lemma mergeGroups_unique groups ids n :
  preserves uniqueKeys (mergeGroups groups ids n).
Proof.
  revert ids n. induction groups as [|[k cs] groups IH]; intros ids n; simpl.
  - pres.
  - pres.
Qed.

#[local] Hint Resolve findOther_unique updateLastMessage_unique
  mergeGroups_unique : pres.

Lemma handle_unique (r : Request) : forall w, uniqueKeys w -> uniqueKeys (handle r w).
Proof.
  destruct r; unfold handle;
    match goal with
    | |- forall w, uniqueKeys w -> uniqueKeys (snd (?m w)) =>
      change (preserves uniqueKeys m)
    end.
  - unfold connection, now, User_setPresence. pres.
  - unfold disconnect, now, User_setPresence. pres.
  - unfold send_message, formatMessage, populateProfile. pres.
  - unfold mark_message_read, now. pres.
  - unfold delete_message. pres.
  - unfold post_message, populateProfile. pres.
  - unfold post_upload, formatMessage, populateProfile. pres.
  - unfold post_chat_create, populateParticipants. pres.
  - unfold delete_route. pres.
  - unfold cleanup_route, Chat_findActive_populated. pres.
Qed.

Lemma step_unique (w w' : World) : step w w' -> uniqueKeys w -> uniqueKeys w'.
Proof.
  intros [r turns w0|op w0] H.
  - apply handle_unique. exact H.
  - now apply envStep_unique.
Qed.

Lemma reachable_unique (w0 w : World) :
  uniqueKeys w0 -> reachableFrom w0 w -> uniqueKeys w.
Proof.
  intros H0. induction 1 as [|w w' _ IH Hstep]; trivial.
  eapply step_unique; eauto.
Qed.

Lemma unique_key_filter (k : string) (cs : list Chat) :
  List.NoDup (map participantsKey cs) ->
  (List.length (List.filter (fun c => (participantsKey c =? k)%string) cs) <= 1)%nat.
Proof.
  induction cs as [|c cs IH]; simpl; [lia|].
  intros H. inversion H as [|? ? Hn Hd]; subst.
  destruct (participantsKey c =? k) eqn:Hk; [|now apply IH].
  apply String.eqb_eq in Hk. subst k.
  replace (List.filter (fun c0 => participantsKey c0 =? participantsKey c) cs)
    with (@nil Chat); [simpl; lia|].
  symmetry. clear IH H Hd. induction cs as [|d cs IH]; simpl; trivial.
  simpl in Hn. destruct (participantsKey d =? participantsKey c) eqn:Hd.
  - apply String.eqb_eq in Hd. tauto.
  - apply IH. tauto.
Qed.

Lemma activeWithKey_sub (k : string) (cs : list Chat) :
  (List.length (activeWithKey k cs)
   <= List.length (List.filter (fun c => (participantsKey c =? k)%string) cs))%nat.
Proof.
  unfold activeWithKey. induction cs as [|c cs IH]; simpl; [lia|].
  destruct (isActive c), (participantsKey c =? k); simpl; lia.
Qed.

(** C1.  Starting from a store in which no two chats share a pair key
    (the empty store, for one), in every world the server can get to (any
    sequence of requests, each under any schedule of concurrent store
    operations and faults), the chats filed under the pair key of two
    distinct users include at most one active chat, and no two stored
    chats share a pair key at all. *)
Theorem one_active_chat_per_pair (w0 w : World) (a b : ObjectId) :
  uniqueKeys w0 -> reachableFrom w0 w -> a <> b ->
  (List.length (activeWithKey (PairKey.participantsKey a b) (chats w)) <= 1)%nat
  /\ List.NoDup (map participantsKey (chats w)).
Proof.
  intros H0 Hr _. pose proof (reachable_unique w0 w H0 Hr) as Hu. split; trivial.
  etransitivity; [apply activeWithKey_sub | now apply unique_key_filter].
Qed.

Lemma raced_reachable : reachableFrom emptyWorld Sample.raced.
Proof.
  unfold Sample.raced, Sample.seeded.
  eapply reach_step; [|apply step_request].
  do 3 (eapply reach_step; [|apply step_env]).
  apply reach_init.
Qed.

Lemma one_active_chat_per_pair_witness :
  uniqueKeys emptyWorld
  /\ reachableFrom emptyWorld Sample.raced
  /\ Sample.alice <> Sample.bob
  /\ List.length (activeWithKey Sample.keyAB (chats Sample.raced)) = 1%nat
  /\ (List.length (activeWithKey (PairKey.participantsKey Sample.alice Sample.bob)
                                 (chats Sample.raced)) <= 1)%nat.
Proof.
  assert (H0 : uniqueKeys emptyWorld) by constructor.
  split; [exact H0|].
  split; [exact raced_reachable|].
  split; [discriminate|].
  split; [reflexivity|].
  apply (one_active_chat_per_pair emptyWorld Sample.raced Sample.alice Sample.bob).
  - exact H0.
  - exact raced_reachable.
  - discriminate.
Defined.

(** ** Recovery from a lost creation race *)

Section ConflictRecovery.

Variables senderId receiverId : string.

Let key : string := PairKey.participantsKey senderId receiverId.

(** What the [catch] block of the three send paths does with the error of
    a failed creation. *)
Let recover (error : Error) : M Chat :=
  if isDuplicateKey error then
    chat <- await (Chat_findOne key) ;;
    match chat with
    | None => throw error
    | Some c => ret c
    end
  else throw error.

Lemma resolveChat_after_miss (w : World) :
  headFault w = None ->
  findChatByKey key (chats (settle w)) = None ->
  resolveChat senderId receiverId w
  = try_catch (createChat senderId receiverId) recover (settle w).
Proof.
  intros Hf Hmiss. unfold resolveChat. cbv zeta.
  unfold key, recover, PairKey.participantsKey, PairKey.sortedParticipants in *.
  unfold bind at 1. rewrite await_settle, Hf.
  unfold Chat_findOne at 1. now rewrite Hmiss.
Qed.

Lemma resolveChatOrNull_after_miss (w : World) :
  headFault w = None ->
  findChatByKey key (chats (settle w)) = None ->
  resolveChatOrNull senderId receiverId w
  = try_catch (c <- createChat senderId receiverId ;; ret (Some c))
      (fun error => if isDuplicateKey error then await (Chat_findOne key)
                    else throw error) (settle w).
Proof.
  intros Hf Hmiss. unfold resolveChatOrNull. cbv zeta.
  unfold key, PairKey.participantsKey, PairKey.sortedParticipants in *.
  unfold bind at 1. rewrite await_settle, Hf.
  unfold Chat_findOne at 1. now rewrite Hmiss.
Qed.

Lemma post_chat_create_resolves (reqUser u : User) (w0 : World) :
  user_id reqUser = senderId ->
  headFault w0 = None ->
  resolveUser receiverId (users (settle w0)) = Some u ->
  post_chat_create reqUser receiverId w0
  = try_catch
      (chat <- resolveChatOrNull senderId receiverId ;;
       match chat with
       | None => throw (typeError "Cannot read properties of null (reading 'populate')")
       | Some chat =>
         ps <- await (populateParticipants chat) ;;
         otherParticipant <- findOther senderId ps ;;
         match otherParticipant with
         | None => ret (mkResponse 500 false "Error finding chat participant" NoBody)
         | Some other =>
           ret (mkResponse 201 true "Chat created successfully"
                           (ChatBody (mkFormattedChat (chat_id chat) other)))
         end
       end)
      (fun error => ret (mkResponse 500 false "Server error while creating chat" NoBody))
      (settle w0).
Proof.
  intros Hid Hf Hu. unfold post_chat_create, resolveUser in *.
  destruct (castObjectId receiverId) as [oid|] eqn:Hc; [|discriminate].
  assert (Hm : isMongoId receiverId = true).
  { unfold castObjectId in Hc. now destruct (isMongoId receiverId). }
  rewrite Hm. simpl negb. cbv iota zeta. rewrite Hid.
  unfold try_catch, bind at 1. rewrite await_settle, Hf.
  unfold User_findById. now rewrite Hc, Hu.
Qed.

End ConflictRecovery.

(** C2.  When a resolver has missed the chat and its insert then fails:
    on a duplicate-key error (code 11000) it re-reads by pair key and
    returns the chat now stored, with no error; it fails, with the
    duplicate-key error, exactly when that re-read finds no chat (in
    [POST /chat/create] the unchecked [null] then fails the request with
    status 500); any other creation error is rethrown as it is. *)
Theorem conflict_recovered (senderId receiverId : string) (w w' : World) (e : Error) :
  headFault w = None ->
  findChatByKey (PairKey.participantsKey senderId receiverId) (chats (settle w)) = None ->
  createChat senderId receiverId (settle w) = (inl e, w') ->
  (isDuplicateKey e = true -> headFault w' = None ->
   (forall c,
       findChatByKey (PairKey.participantsKey senderId receiverId)
                     (chats (settle w')) = Some c ->
       resolveChat senderId receiverId w = (inr c, settle w')
       /\ resolveChatOrNull senderId receiverId w = (inr (Some c), settle w'))
   /\ (findChatByKey (PairKey.participantsKey senderId receiverId)
                     (chats (settle w')) = None ->
       resolveChat senderId receiverId w = (inl e, settle w')
       /\ forall reqUser u w0,
           user_id reqUser = senderId -> headFault w0 = None ->
           resolveUser receiverId (users (settle w0)) = Some u ->
           settle w0 = w ->
           post_chat_create reqUser receiverId w0
           = (inr (mkResponse 500 false "Server error while creating chat" NoBody),
              settle w')))
  /\ (isDuplicateKey e = false ->
      resolveChat senderId receiverId w = (inl e, w')
      /\ resolveChatOrNull senderId receiverId w = (inl e, w')).
Proof.
  intros Hf Hmiss Hcreate.
  pose proof (resolveChat_after_miss senderId receiverId w Hf Hmiss) as HR.
  pose proof (resolveChatOrNull_after_miss senderId receiverId w Hf Hmiss) as HN.
  cbv zeta in HR, HN.
  unfold try_catch in HR, HN. unfold bind at 1 in HN.
  rewrite Hcreate in HR, HN.
  split.
  - intros Hdup Hf'. rewrite Hdup in HR, HN.
    unfold bind in HR. rewrite await_settle, Hf' in HR, HN.
    unfold Chat_findOne in HR, HN. split.
    + intros c Hc. rewrite Hc in HR, HN. now split.
    + intros Hc. rewrite Hc in HR, HN. split; trivial.
      intros reqUser u w0 Hid Hf0 Hu Hw.
      rewrite (post_chat_create_resolves senderId receiverId reqUser u w0 Hid Hf0 Hu).
      unfold try_catch at 1. unfold bind at 1. rewrite Hw, HN. reflexivity.
  - intros Hdup. rewrite Hdup in HR, HN. now split.
Qed.

Lemma conflict_recovered_witness :
  headFault Sample.lostRace = None
  /\ findChatByKey (PairKey.participantsKey Sample.alice Sample.bob)
                   (chats (settle Sample.lostRace)) = None
  /\ createChat Sample.alice Sample.bob (settle Sample.lostRace)
     = (inl duplicateKeyError, Sample.afterConflict)
  /\ isDuplicateKey duplicateKeyError = true
  /\ headFault Sample.afterConflict = None
  /\ resolveChat Sample.alice Sample.bob Sample.lostRace
     = (inr Sample.bobsStoredChat, settle Sample.afterConflict).
Proof.
  assert (H1 : headFault Sample.lostRace = None) by reflexivity.
  assert (H2 : findChatByKey (PairKey.participantsKey Sample.alice Sample.bob)
                             (chats (settle Sample.lostRace)) = None)
    by reflexivity.
  assert (H3 : createChat Sample.alice Sample.bob (settle Sample.lostRace)
               = (inl duplicateKeyError, Sample.afterConflict)) by reflexivity.
  repeat (split; [assumption || reflexivity|]).
  destruct (conflict_recovered Sample.alice Sample.bob Sample.lostRace
              Sample.afterConflict duplicateKeyError H1 H2 H3) as [Hdup _].
  destruct (Hdup eq_refl eq_refl) as [Hfound _].
  apply (Hfound Sample.bobsStoredChat). reflexivity.
Defined.

(** The anomaly surfaces: the socket send reports its error and stores no
    message; the explicit creation answers 500. *)
Example conflict_anomaly :
  outbox (snd (send_message Sample.sAlice Sample.bob "hi" None
                            (set_sched Sample.anomalyTurns Sample.seeded)))
  = [(ToSocket "s1", error_event "Error sending message")]
  /\ messages (snd (send_message Sample.sAlice Sample.bob "hi" None
                                 (set_sched Sample.anomalyTurns Sample.seeded))) = []
  /\ option_map status
       (match fst (post_chat_create Sample.uAlice Sample.bob
                                    (set_sched Sample.anomalyTurns Sample.seeded)) with
        | inr r => Some r
        | inl _ => None
        end) = Some 500%Z.
Proof. repeat split. Qed.

(** ** Deleting the recorded last message *)

(** C3.  On the chat of [Sample.talking], whose recorded last message is
    [m2] with [m1] surviving, the sender's delete of [m2] (REST route, then
    socket handler) removes [m2] and leaves the chat pointing at it; on a
    chat whose only message is [m2] the pointer is left as well.  The chat
    is loaded with [lastMessage] populated after the message is gone, so
    the populated field is [null] and the recomputation is skipped. *)
Theorem delete_last_leaves_pointer :
  (let w' := snd (delete_route true Sample.uBob "0000000000000000000000e2"
                               Sample.talking) in
   messages w' = [Sample.m1]
   /\ map lastMessage (chats w') = [Some "0000000000000000000000e2"]
   /\ map lastMessageAt (chats w') = [Some 2000%Z])
  /\ (let w' := snd (delete_message Sample.sBob "0000000000000000000000e2"
                                    "0000000000000000000000c1" Sample.talking) in
      messages w' = [Sample.m1]
      /\ map lastMessage (chats w') = [Some "0000000000000000000000e2"]
      /\ map lastMessageAt (chats w') = [Some 2000%Z])
  /\ (let w' := snd (delete_route true Sample.uBob "0000000000000000000000e2"
                                  (set_messages [Sample.m2] Sample.talking)) in
      messages w' = []
      /\ map lastMessage (chats w') = [Some "0000000000000000000000e2"]
      /\ map lastMessageAt (chats w') = [Some 2000%Z]).
Proof. repeat split. Qed.

(** ** Only the sender deletes *)

Lemma eqb_false_of_neq (a b : string) : a <> b -> (a =? b) = false.
Proof. apply String.eqb_neq. Qed.

(** C4.  When the stored message's sender is not the requester, both
    delete paths answer with the authorization error and write nothing:
    the world is the one the lookup ran in (plus, on the socket, the error
    event).  Hence a delete that changes the messages comes from the
    sender. *)
Theorem delete_requires_sender (w : World) (messageId : string) (oid : ObjectId)
        (m : Message) :
  headFault w = None ->
  castObjectId messageId = Some oid ->
  findMessage oid (messages (settle w)) = Some m ->
  (forall socket chatId,
      sender m <> userId socket ->
      delete_message socket messageId chatId w
      = (inr tt,
         set_outbox (outbox (settle w)
                     ++ [(ToSocket (socketId socket),
                          error_event "Not authorized to delete this message")])
                    (settle w)))
  /\ (forall io reqUser,
         sender m <> user_id reqUser ->
         delete_route io reqUser messageId w
         = (inr (mkResponse 403 false "Not authorized to delete this message" NoBody),
            settle w))
  /\ (forall socket chatId,
         messages (snd (delete_message socket messageId chatId w))
         <> messages (settle w) ->
         sender m = userId socket)
  /\ (forall io reqUser,
         messages (snd (delete_route io reqUser messageId w))
         <> messages (settle w) ->
         sender m = user_id reqUser).
Proof.
  intros Hf Hc Hm.
  assert (HS : forall socket chatId, sender m <> userId socket ->
    delete_message socket messageId chatId w
    = (inr tt,
       set_outbox (outbox (settle w)
                   ++ [(ToSocket (socketId socket),
                        error_event "Not authorized to delete this message")])
                  (settle w))).
  { intros socket cid Hne. unfold delete_message, try_catch, bind at 1.
    rewrite await_settle, Hf. unfold Message_findById. rewrite Hc, Hm.
    now rewrite (eqb_false_of_neq _ _ Hne). }
  assert (HR : forall io reqUser, sender m <> user_id reqUser ->
    delete_route io reqUser messageId w
    = (inr (mkResponse 403 false "Not authorized to delete this message" NoBody),
       settle w)).
  { intros io reqUser Hne. unfold delete_route, try_catch. cbv zeta.
    unfold bind at 1. rewrite await_settle, Hf. unfold Message_findById.
    rewrite Hc, Hm. now rewrite (eqb_false_of_neq _ _ Hne). }
  repeat split; trivial.
  - intros socket cid Hchg.
    destruct (String.string_dec (sender m) (userId socket)) as [E|Hne]; trivial.
    rewrite (HS socket cid Hne) in Hchg. now contradiction Hchg.
  - intros io reqUser Hchg.
    destruct (String.string_dec (sender m) (user_id reqUser)) as [E|Hne]; trivial.
    rewrite (HR io reqUser Hne) in Hchg. now contradiction Hchg.
Qed.

Lemma delete_requires_sender_witness :
  headFault Sample.talking = None
  /\ castObjectId "0000000000000000000000e2" = Some "0000000000000000000000e2"
  /\ findMessage "0000000000000000000000e2" (messages (settle Sample.talking))
     = Some Sample.m2
  /\ sender Sample.m2 <> userId Sample.sAlice
  /\ delete_message Sample.sAlice "0000000000000000000000e2"
                    "0000000000000000000000c1" Sample.talking
     = (inr tt,
        set_outbox [(ToSocket "s1", error_event "Not authorized to delete this message")]
                   Sample.talking).
Proof.
  repeat (split; [reflexivity || discriminate|]).
  refine (proj1 (delete_requires_sender Sample.talking "0000000000000000000000e2"
                   "0000000000000000000000e2" Sample.m2 eq_refl eq_refl eq_refl)
                Sample.sAlice "0000000000000000000000c1" _).
  discriminate.
Defined.

(** ** Stepping through a handler *)

Lemma bind_ok {A B} (m : M A) (k : A -> M B) (w w1 : World) (a : A) :
  m w = (inr a, w1) -> bind m k w = k a w1.
Proof. intros H. unfold bind. now rewrite H. Qed.

Lemma bind_err {A B} (m : M A) (k : A -> M B) (w w1 : World) (e : Error) :
  m w = (inl e, w1) -> bind m k w = (inl e, w1).
Proof. intros H. unfold bind. now rewrite H. Qed.

Lemma try_catch_bind_ok {A B} (m : M A) (k : A -> M B) (h : Error -> M B)
      (w w1 : World) (a : A) :
  m w = (inr a, w1) -> try_catch (bind m k) h w = try_catch (k a) h w1.
Proof. intros H. unfold try_catch. now rewrite (bind_ok _ _ _ _ _ H). Qed.

Lemma try_catch_bind_err {A B} (m : M A) (k : A -> M B) (h : Error -> M B)
      (w w1 : World) (e : Error) :
  m w = (inl e, w1) -> try_catch (bind m k) h w = h e w1.
Proof. intros H. unfold try_catch. now rewrite (bind_err _ _ _ _ _ H). Qed.

(** ** Read receipts *)

Lemma updateFirst_twice {A} (p : A -> bool) (f g h : A -> A) (l : list A) :
  (forall x, p (f x) = p x) -> (forall x, g (f x) = h x) ->
  updateFirst p g (updateFirst p f l) = updateFirst p h l.
Proof.
  intros Hp Hg. induction l as [|x l IH]; simpl; trivial.
  destruct (p x) eqn:Hx; simpl.
  - now rewrite Hp, Hx, Hg.
  - now rewrite Hx, IH.
Qed.

Lemma mark_message_read_effect (messageId : string) (oid : ObjectId) (w : World) :
  sched w = [] -> castObjectId messageId = Some oid ->
  let w' := snd (mark_message_read messageId w) in
  messages w' = updateFirst (fun x => msg_id x =? oid) (msg_set_read (clock w))
                            (messages w)
  /\ sched w' = [] /\ clock w' = clock w.
Proof.
  intros Hq Hc. unfold mark_message_read, try_catch, bind, now.
  rewrite (await_quiet _ _ Hq). unfold Message_markRead. rewrite Hc.
  destruct (findMessage oid (messages w)) as [m|] eqn:Hm; simpl.
  - auto.
  - unfold findMessage in Hm. rewrite (updateFirst_none _ _ _ Hm). auto.
Qed.

(** C5 fails as stated: a second later, the second call moves [readAt]
    from 3000 to 4000. *)
Lemma markRead_twice_differs :
  map readAt (messages Sample.readOnce) = [None; Some 3000%Z]
  /\ map readAt (messages Sample.readTwice) = [None; Some 4000%Z]
  /\ messages Sample.readTwice <> messages Sample.readOnce.
Proof. repeat split. discriminate. Qed.

(** C5, amended.  After two successive calls the message is read and its
    state is the one the second call alone would have produced: the read
    flag stays set and [readAt] is the instant of the second call, every
    other field being as the first call left it.  The state is identical
    to the one after the first call when no time has passed in between. *)
Theorem markRead_last_write_wins (messageId : string) (oid : ObjectId) (ms : N)
        (w : World) :
  sched w = [] -> castObjectId messageId = Some oid ->
  messages (snd (markReadTwice messageId ms w))
  = updateFirst (fun x => msg_id x =? oid)
                (msg_set_read (clock w + Z.of_N ms)) (messages w)
  /\ messages (snd (markReadTwice messageId ms w))
     = updateFirst (fun x => msg_id x =? oid)
                   (fun m => mkMessage (msg_id m) (sender m) (receiver m) (content m)
                                       (messageType m) (isRead m)
                                       (Some (clock w + Z.of_N ms)%Z) (chatId m)
                                       (isMockMessage m) (msg_createdAt m))
                   (messages (fst (markReadTwice messageId ms w)))
  /\ (forall m, findMessage oid (messages (snd (markReadTwice messageId ms w))) = Some m ->
                isRead m = true /\ readAt m = Some (clock w + Z.of_N ms)%Z)
  /\ (ms = 0%N ->
      messages (snd (markReadTwice messageId ms w))
      = messages (fst (markReadTwice messageId ms w))).
Proof.
  intros Hq Hc. unfold markReadTwice. cbv zeta. cbn [fst snd].
  destruct (mark_message_read_effect messageId oid w Hq Hc) as (H1 & Hq1 & Hc1).
  cbv zeta in H1, Hq1, Hc1.
  set (w1 := snd (mark_message_read messageId w)) in *.
  assert (Hq1' : sched (envStep (EnvTick ms) w1) = []) by exact Hq1.
  destruct (mark_message_read_effect messageId oid _ Hq1' Hc) as (H2 & _ & _).
  cbv zeta in H2.
  change (clock (envStep (EnvTick ms) w1)) with (clock w1 + Z.of_N ms)%Z in H2.
  change (messages (envStep (EnvTick ms) w1)) with (messages w1) in H2.
  rewrite Hc1 in H2.
  assert (E : messages (snd (mark_message_read messageId (envStep (EnvTick ms) w1)))
              = updateFirst (fun x => msg_id x =? oid)
                            (msg_set_read (clock w + Z.of_N ms)) (messages w)).
  { rewrite H2, H1. now apply updateFirst_twice. }
  repeat split.
  - exact E.
  - rewrite E, H1. symmetry. now apply updateFirst_twice.
  - rewrite E in H. unfold findMessage in H.
    rewrite find_updateFirst_same in H by reflexivity.
    destruct (List.find _ _); [|discriminate]. now injection H as <-.
  - rewrite E in H. unfold findMessage in H.
    rewrite find_updateFirst_same in H by reflexivity.
    destruct (List.find _ _); [|discriminate]. now injection H as <-.
  - intros ->. rewrite E, H1. simpl. now rewrite Z.add_0_r.
Qed.

Lemma markRead_last_write_wins_witness :
  sched Sample.talking = []
  /\ castObjectId "0000000000000000000000e2" = Some "0000000000000000000000e2"
  /\ messages (snd (markReadTwice "0000000000000000000000e2" 1000 Sample.talking))
     = updateFirst (fun x => msg_id x =? "0000000000000000000000e2")
                   (msg_set_read 4000) (messages Sample.talking).
Proof.
  repeat (split; [reflexivity|]).
  exact (proj1 (markRead_last_write_wins "0000000000000000000000e2"
                  "0000000000000000000000e2" 1000 Sample.talking eq_refl eq_refl)).
Defined.

(** ** Presence *)

Lemma envStep_presence (op : EnvOp) (w : World) :
  activeUsers (envStep op w) = activeUsers w
  /\ outbox (envStep op w) = outbox w.
Proof.
  destruct op; simpl; auto.
  - now destruct (existsb _ _).
  - unfold Chat_save_new. destruct (preValidate c); auto.
    now destruct (existsb _ _).
  - unfold Message_save. destruct (validateMessage m); auto.
    now destruct (existsb _ _).
Qed.

Lemma envSteps_presence (ops : list EnvOp) (w : World) :
  activeUsers (envSteps ops w) = activeUsers w
  /\ outbox (envSteps ops w) = outbox w.
Proof.
  revert w. induction ops as [|op ops IH]; simpl; auto.
  intros w. destruct (IH (envStep op w)) as [-> ->]. apply envStep_presence.
Qed.

Lemma settle_presence (w : World) :
  activeUsers (settle w) = activeUsers w /\ outbox (settle w) = outbox w.
Proof.
  unfold settle. destruct (sched w) as [|t rest]; auto.
  now destruct (envSteps_presence (before t) (set_sched rest w)) as [-> ->].
Qed.

(** C7 fails as stated: with two sessions of alice open, the registry
    holds one entry (the later session); the disconnect of the first
    session removes it, marks alice offline and broadcasts [user_offline],
    while the second session is still in its room. *)
Lemma disconnect_one_of_two :
  joined Sample.twoSessions
  = [("s1", "user_aaaaaaaaaaaaaaaaaaaaaaaa"); ("s2", "user_aaaaaaaaaaaaaaaaaaaaaaaa")]
  /\ activeUsers Sample.twoSessions !! Sample.alice
     = Some (mkActiveUser "s2" Sample.uAlice 1000)
  /\ map isOnline (users Sample.twoSessions) = [true; false]
  /\ joined Sample.oneLeft = joined Sample.twoSessions
  /\ activeUsers Sample.oneLeft !! Sample.alice = None
  /\ map isOnline (users Sample.oneLeft) = [false; false]
  /\ outbox Sample.oneLeft
     = outbox Sample.twoSessions
       ++ [(BroadcastFrom "s1", user_offline Sample.alice "alice")].
Proof. repeat split; vm_compute; reflexivity. Qed.

(** C7, amended.  The registry keeps one entry per user, the last
    connection's.  Every disconnect whose presence write goes through
    removes the user's entry, clears the user's online flag and broadcasts
    [user_offline] to the other connections, whether or not other
    sessions of that user are open. *)
Theorem disconnect_always_offline (socket : Socket) (w : World) :
  headFault w = None ->
  fst (disconnect socket w) = inr tt
  /\ activeUsers (snd (disconnect socket w)) = delete (userId socket) (activeUsers w)
  /\ activeUsers (snd (disconnect socket w)) !! userId socket = None
  /\ (forall u, findUser (userId socket) (users (snd (disconnect socket w))) = Some u ->
                isOnline u = false)
  /\ outbox (snd (disconnect socket w))
     = outbox w ++ [(BroadcastFrom (socketId socket),
                     user_offline (userId socket) (username (user socket)))].
Proof.
  intros Hf. unfold disconnect, bind, modify, now.
  rewrite await_settle.
  set (wa := set_activeUsers (delete (userId socket) (activeUsers w)) w).
  change (headFault wa) with (headFault w). rewrite Hf.
  destruct (settle_presence wa) as [Ha Ho].
  unfold User_setPresence, modify, emit. simpl.
  rewrite Ha, Ho. simpl. repeat split.
  - apply lookup_delete_eq.
  - intros u Hu. unfold findUser in Hu.
    rewrite find_updateFirst_same in Hu by reflexivity.
    destruct (List.find _ _); [|discriminate]. now injection Hu as <-.
Qed.

Lemma disconnect_always_offline_witness :
  headFault Sample.twoSessions = None
  /\ activeUsers (snd (disconnect Sample.sAlice Sample.twoSessions)) !! Sample.alice
     = None.
Proof.
  split; [reflexivity|].
  exact (proj1 (proj2 (proj2 (disconnect_always_offline Sample.sAlice
                                Sample.twoSessions eq_refl)))).
Defined.

(** ** What chat resolution checks *)

Lemma castObjectId_isMongoId (s : string) (oid : ObjectId) :
  castObjectId s = Some oid -> isMongoId s = true.
Proof. unfold castObjectId. now destruct (isMongoId s). Qed.

Lemma User_findById_quiet (id : string) (w : World) :
  sched w = [] ->
  await (User_findById id) w
  = match castObjectId id with
    | Some oid => (inr (findUser oid (users w)), w)
    | None => (inl castError, w)
    end.
Proof.
  intros Hq. rewrite (await_quiet _ _ Hq). unfold User_findById.
  now destruct (castObjectId id).
Qed.




(** ** Sending into a deactivated chat *)











Section Reuse.

Variables (w : World) (senderId receiverId : string) (u : User) (c : Chat).

Hypothesis Hq : sched w = [].
Hypothesis Hu : resolveUser receiverId (users w) = Some u.
Hypothesis Hc :
  findChatByKey (PairKey.participantsKey senderId receiverId) (chats w) = Some c.
Hypothesis Hpv : preValidate c = inr c.
Hypothesis Hids : List.NoDup (map chat_id (chats w)).
Hypothesis Hfresh : findMessage (oidOfCounter (oidCounter w)) (messages w) = None.








End Reuse.



(** ** The reconciliation sweep *)

Lemma populated_never_null (us : list User) (ids : list ObjectId) :
  existsb isNull (flat_map (fun id => match findUser id us with
                                      | Some u => [Some u]
                                      | None => []
                                      end) ids) = false.
Proof.
  induction ids as [|id ids IH]; simpl; trivial.
  rewrite existsb_app, IH. now destruct (findUser id us).
Qed.

Lemma classify_populated (us : list User) (l : list Chat) (o : list ObjectId)
      (g : list (string * list Chat)) :
  classify (map (fun c => (c, flat_map (fun id => match findUser id us with
                                                   | Some u => [Some u]
                                                   | None => []
                                                   end) (participants c))) l) o g
  = (o, fold_left (fun g c => pushGroup (participantsKey c) c g) l g).
Proof.
  revert o g. induction l as [|c l IH]; intros o g; simpl; trivial.
  now rewrite populated_never_null, IH.
Qed.

Lemma insertBy_length {A} (cmp : A -> A -> Z) (x : A) (l : list A) :
  List.length (insertBy cmp x l) = S (List.length l).
Proof.
  induction l as [|y l IH]; simpl; trivial.
  destruct (cmp x y <=? 0)%Z; simpl; congruence.
Qed.

Lemma sortBy_length {A} (cmp : A -> A -> Z) (l : list A) :
  List.length (sortBy cmp l) = List.length l.
Proof.
  induction l as [|x l IH]; simpl; trivial.
  now rewrite insertBy_length, IH.
Qed.

Lemma moveOne_nil (k : ObjectId) (m : Message) : moveOne [] k m = m.
Proof. unfold moveOne. now destruct (chatId m). Qed.

Lemma map_moveOne_nil (k : ObjectId) (ms : list Message) : map (moveOne [] k) ms = ms.
Proof.
  induction ms as [|m ms IH]; simpl; trivial. now rewrite moveOne_nil, IH.
Qed.

Lemma mergeGroups_quiet (groups : list (string * list Chat)) :
  forall (ids : list ObjectId) (n : nat) (w : World),
    sched w = [] ->
    exists n',
      mergeGroups groups ids n w
      = (inr (ids ++ flat_map (fun g => dupIdsOf (snd g)) groups, n'),
         set_messages (sweepMessages groups (messages w)) w).
Proof.
  induction groups as [|[k cs] groups IH]; intros ids n w Hq.
  - exists n. simpl. rewrite app_nil_r. unfold ret. destruct w; reflexivity.
  - cbn [mergeGroups flat_map sweepMessages fold_left snd].
    fold (sweepMessages groups).
    destruct (1 <? List.length cs)%nat eqn:Hlen.
    + destruct (sortBy byRecency cs) as [|keepChat others] eqn:Hs.
      { apply (f_equal (@List.length Chat)) in Hs. rewrite sortBy_length in Hs.
        apply Nat.ltb_lt in Hlen. simpl in Hs. lia. }
      assert (Hd : dupIdsOf cs = map chat_id others).
      { unfold dupIdsOf. now rewrite Hlen, Hs. }
      assert (Hk : keepIdOf cs = chat_id keepChat).
      { unfold keepIdOf. now rewrite Hs. }
      rewrite Hd, Hk.
      unfold bind at 1. rewrite (await_quiet _ _ Hq).
      unfold Message_moveMany, modify.
      destruct (IH (ids ++ map chat_id others)
                   (n + (List.length cs - 1))%nat
                   (set_messages (map (moveOne (map chat_id others) (chat_id keepChat))
                                      (messages w)) w) Hq) as [n' ->].
      exists n'. rewrite <- app_assoc. reflexivity.
    + assert (Hd : dupIdsOf cs = []).
      { unfold dupIdsOf. now rewrite Hlen. }
      rewrite Hd, map_moveOne_nil. apply IH, Hq.
Qed.

Lemma deactivateAll_nil (cs : list Chat) : deactivateAll [] cs = cs.
Proof. unfold deactivateAll. simpl. apply map_id. Qed.

Lemma sweep_quiet (w : World) :
  sched w = [] ->
  sweep w
  = set_chats (deactivateAll (flat_map (fun g => dupIdsOf (snd g)) (groupsOf (chats w)))
                             (chats w))
              (set_messages (sweepMessages (groupsOf (chats w)) (messages w)) w).
Proof.
  intros Hq. unfold sweep, cleanup_route, try_catch.
  unfold bind at 1. rewrite (await_quiet _ _ Hq).
  unfold Chat_findActive_populated. rewrite classify_populated.
  cbv zeta. cbn [fst snd]. fold (groupsOf (chats w)).
  destruct (mergeGroups_quiet (groupsOf (chats w)) [] 0%nat w Hq) as [n' Hm].
  rewrite (bind_ok _ _ _ _ _ Hm). cbn [fst snd app].
  set (D := flat_map (fun g => dupIdsOf (snd g)) (groupsOf (chats w))).
  destruct D as [|d D'] eqn:HD.
  - simpl. rewrite deactivateAll_nil. destruct w; reflexivity.
  - cbn [List.length Nat.ltb Nat.leb]. unfold bind.
    rewrite await_quiet by exact Hq. reflexivity.
Qed.

(** *** The groups of the first loop *)

Lemma groupOf_push (k k' : string) (c : Chat) (g : list (string * list Chat)) :
  groupOf k' (pushGroup k c g)
  = if k =? k' then groupOf k' g ++ [c] else groupOf k' g.
Proof.
  unfold groupOf. induction g as [|[k0 cs] g IH]; simpl.
  - now destruct (k =? k').
  - destruct (k0 =? k) eqn:H0; simpl.
    + apply String.eqb_eq in H0. subst k0. now destruct (k =? k').
    + destruct (k0 =? k') eqn:H1; simpl.
      * apply String.eqb_eq in H1. subst k0. rewrite String.eqb_sym in H0.
        now rewrite H0.
      * exact IH.
Qed.

Lemma groupOf_fold (k : string) (l : list Chat) (g : list (string * list Chat)) :
  groupOf k (fold_left (fun g c => pushGroup (participantsKey c) c g) l g)
  = groupOf k g ++ List.filter (fun c => participantsKey c =? k) l.
Proof.
  revert g. induction l as [|c l IH]; intros g; simpl.
  - now rewrite app_nil_r.
  - rewrite IH, groupOf_push. destruct (participantsKey c =? k); trivial.
    now rewrite <- app_assoc.
Qed.

Lemma keys_push_in (k k' : string) (c : Chat) (g : list (string * list Chat)) :
  In k' (map fst (pushGroup k c g)) -> In k' (map fst g) \/ k' = k.
Proof.
  induction g as [|[k0 cs] g IH]; simpl.
  - intuition.
  - destruct (k0 =? k); simpl; intuition.
Qed.

Lemma keys_push_NoDup (k : string) (c : Chat) (g : list (string * list Chat)) :
  List.NoDup (map fst g) -> List.NoDup (map fst (pushGroup k c g)).
Proof.
  induction g as [|[k0 cs] g IH]; simpl; intros H.
  - constructor; [simpl; tauto | constructor].
  - inversion H as [|? ? Hn Hd]; subst.
    destruct (k0 =? k) eqn:H0; simpl; [now constructor|].
    constructor; [|now apply IH].
    intros Hin. apply keys_push_in in Hin as [Hin| ->]; [tauto|].
    now rewrite String.eqb_refl in H0.
Qed.

Lemma keys_fold_NoDup (l : list Chat) (g : list (string * list Chat)) :
  List.NoDup (map fst g) ->
  List.NoDup (map fst (fold_left (fun g c => pushGroup (participantsKey c) c g) l g)).
Proof.
  revert g. induction l as [|c l IH]; intros g H; simpl; trivial.
  apply IH. now apply keys_push_NoDup.
Qed.

Lemma groupOf_member (k : string) (cs : list Chat) (g : list (string * list Chat)) :
  List.NoDup (map fst g) -> In (k, cs) g -> groupOf k g = cs.
Proof.
  unfold groupOf. induction g as [|[k0 cs0] g IH]; simpl; [tauto|].
  intros H Hin. inversion H as [|? ? Hn Hd]; subst.
  destruct (k0 =? k) eqn:H0; simpl.
  - apply String.eqb_eq in H0. subst k0. destruct Hin as [E|Hin]; [congruence|].
    exfalso. apply Hn. change k with (fst (k, cs)). now apply in_map.
  - destruct Hin as [E|Hin]; [|now apply IH].
    injection E as -> ->. now rewrite String.eqb_refl in H0.
Qed.

Lemma groupOf_in (k : string) (g : list (string * list Chat)) :
  groupOf k g <> [] -> In (k, groupOf k g) g.
Proof.
  unfold groupOf. destruct (List.find _ g) as [[k0 cs]|] eqn:Hf; [|tauto].
  intros _. apply find_some in Hf as [Hin Hk]. simpl in *.
  apply String.eqb_eq in Hk. now subst k0.
Qed.

Lemma groupsOf_spec (k : string) (cs : list Chat) (all : list Chat) :
  In (k, cs) (groupsOf all) ->
  cs = List.filter (fun c => participantsKey c =? k) (List.filter isActive all).
Proof.
  intros Hin. unfold groupsOf in *.
  rewrite <- (groupOf_member k cs _ (keys_fold_NoDup _ [] (List.NoDup_nil _)) Hin).
  now rewrite groupOf_fold.
Qed.

Lemma groupsOf_group (k : string) (all : list Chat) :
  groupOf k (groupsOf all)
  = List.filter (fun c => participantsKey c =? k) (List.filter isActive all).
Proof. unfold groupsOf. now rewrite groupOf_fold. Qed.

(** *** Counting through the sort *)

Lemma filter_insertBy_length {A} (p : A -> bool) (cmp : A -> A -> Z) (x : A) (l : list A) :
  List.length (List.filter p (insertBy cmp x l)) = List.length (List.filter p (x :: l)).
Proof.
  induction l as [|y l IH]; trivial.
  simpl insertBy. destruct (cmp x y <=? 0)%Z; trivial.
  simpl in *. destruct (p y), (p x); simpl in *; lia.
Qed.

Lemma filter_sortBy_length {A} (p : A -> bool) (cmp : A -> A -> Z) (l : list A) :
  List.length (List.filter p (sortBy cmp l)) = List.length (List.filter p l).
Proof.
  induction l as [|x l IH]; trivial.
  simpl sortBy. rewrite filter_insertBy_length. simpl.
  destruct (p x); simpl; lia.
Qed.

Lemma memId_In (x : ObjectId) (l : list ObjectId) : memId x l = true <-> In x l.
Proof.
  unfold memId. rewrite existsb_exists. split.
  - intros (y & Hin & Hy). apply String.eqb_eq in Hy. now subst.
  - intros Hin. exists x. split; trivial. apply String.eqb_refl.
Qed.

Lemma group_after (k : string) (D : list ObjectId) (cs : list Chat) :
  List.filter (fun c => participantsKey c =? k) (List.filter isActive (deactivateAll D cs))
  = List.filter (fun c => negb (memId (chat_id c) D))
                (List.filter (fun c => participantsKey c =? k) (List.filter isActive cs)).
Proof.
  induction cs as [|c cs IH]; simpl; trivial.
  destruct (memId (chat_id c) D) eqn:Hm; simpl.
  - destruct (isActive c); simpl; trivial.
    destruct (participantsKey c =? k); simpl; trivial. now rewrite Hm.
  - destruct (isActive c); simpl; trivial.
    destruct (participantsKey c =? k); simpl; trivial. now rewrite Hm, IH.
Qed.

Lemma filter_all_false {A} (p : A -> bool) (l : list A) :
  (forall x, In x l -> p x = false) -> List.filter p l = [].
Proof.
  induction l as [|x l IH]; simpl; trivial.
  intros H. rewrite (H x) by tauto. apply IH. intros y Hy. apply H. tauto.
Qed.

Lemma filter_length_le {A} (p : A -> bool) (l : list A) :
  (List.length (List.filter p l) <= List.length l)%nat.
Proof.
  induction l as [|x l IH]; simpl; trivial. destruct (p x); simpl; lia.
Qed.

(** After a sweep no pair key has two active chats. *)
Lemma sweep_leaves_one (k : string) (all : list Chat) :
  (List.length
     (List.filter (fun c => (participantsKey c =? k)%string)
        (List.filter isActive
           (deactivateAll (flat_map (fun g => dupIdsOf (snd g)) (groupsOf all)) all)))
   <= 1)%nat.
Proof.
  rewrite group_after. rewrite <- groupsOf_group.
  set (D := flat_map (fun g => dupIdsOf (snd g)) (groupsOf all)).
  set (cs := groupOf k (groupsOf all)).
  destruct (1 <? List.length cs)%nat eqn:Hlen.
  - assert (Hin : In (k, cs) (groupsOf all)).
    { apply groupOf_in. intros E. fold cs in E. rewrite E in Hlen. discriminate. }
    rewrite <- (filter_sortBy_length _ byRecency).
    destruct (sortBy byRecency cs) as [|keepChat others] eqn:Hs; [simpl; lia|].
    simpl. rewrite (filter_all_false _ others).
    + destruct (negb _); simpl; lia.
    + intros x Hx. apply negb_false_iff, memId_In. unfold D.
      apply in_flat_map. exists (k, cs). split; trivial. simpl.
      unfold dupIdsOf. rewrite Hlen, Hs. simpl. now apply in_map.
  - apply Nat.ltb_ge in Hlen. pose proof (filter_length_le (fun c => negb (memId (chat_id c) D)) cs). lia.
Qed.



(** *** Two chats under one key *)

Lemma activeWithKey_filter (k : string) (cs : list Chat) :
  activeWithKey k cs
  = List.filter (fun c => participantsKey c =? k) (List.filter isActive cs).
Proof.
  unfold activeWithKey. induction cs as [|c cs IH]; simpl; trivial.
  destruct (isActive c); simpl; [|exact IH].
  destruct (participantsKey c =? k); now rewrite IH.
Qed.






Lemma sweepMessages_map (G : list (string * list Chat)) (ms : list Message) :
  sweepMessages G ms = map (sweepOne G) ms.
Proof.
  revert ms. induction G as [|g G IH]; intros ms.
  - unfold sweepMessages, sweepOne. simpl. symmetry. apply map_id.
  - unfold sweepMessages in *. simpl. rewrite IH, map_map. reflexivity.
Qed.






Lemma NoDup_map_filter {A B} (f : A -> B) (p : A -> bool) (l : list A) :
  List.NoDup (map f l) -> List.NoDup (map f (List.filter p l)).
Proof.
  induction l as [|x l IH]; simpl; trivial.
  intros H. inversion H as [|? ? Hn Hd]; subst.
  destruct (p x); simpl; [|now apply IH].
  constructor; [|now apply IH].
  intros Hin. apply Hn. apply in_map_iff in Hin as (y & Hy & Hin).
  apply filter_In in Hin as [Hin _]. rewrite <- Hy. now apply in_map.
Qed.

Section TwoChats.

Variables (w : World) (k : string) (c1 c2 : Chat).

Hypothesis Hq : sched w = [].
Hypothesis Hids : List.NoDup (map chat_id (chats w)).
Hypothesis Hpair : activeWithKey k (chats w) = [c1; c2].

Let dropped := droppedOf c1 c2.
Let G := groupsOf (chats w).
Let D := flat_map (fun g => dupIdsOf (snd g)) G.





















End TwoChats.



(** ** Deleting never moves the pointer *)

Lemma find_removeFirst_unique {A B} (f : A -> B) (p : A -> bool) (l : list A) :
  (forall x y, p x = true -> p y = true -> f x = f y) ->
  List.NoDup (map f l) -> List.find p (removeFirst p l) = None.
Proof.
  intros Hp. induction l as [|x l IH]; simpl; trivial.
  intros H. inversion H as [|? ? Hn Hd]; subst.
  destruct (p x) eqn:Hx; simpl.
  - destruct (List.find p l) as [y|] eqn:Hy; trivial.
    apply find_some in Hy as [Hin Hpy]. exfalso. apply Hn.
    rewrite (Hp x y Hx Hpy). now apply in_map.
  - rewrite Hx. now apply IH.
Qed.

(** Once the message is gone, the chat loaded with [lastMessage]
    populated never shows it: the recomputation is skipped. *)
Lemma updateLastMessage_skipped (chatRef : option string) (id : string) (w : World) :
  sched w = [] ->
  findMessage id (messages w) = None ->
  (exists e, updateLastMessage chatRef id w = (inl e, w))
  \/ updateLastMessage chatRef id w = (inr tt, w).
Proof.
  intros Hq Hgone. unfold updateLastMessage, bind.
  rewrite (await_quiet _ _ Hq). unfold Chat_findById_populated.
  destruct chatRef as [s|]; [|now right].
  destruct (castObjectId s) as [oid|]; [|left; eauto].
  destruct (findChatById oid (chats w)) as [c|]; simpl; [|now right].
  destruct (lastMessage c) as [lm|]; [|now right].
  destruct (findMessage lm (messages w)) as [m|] eqn:Hm; [|now right].
  destruct (msg_id m =? id) eqn:E; [|now right].
  exfalso. apply String.eqb_eq in E.
  unfold findMessage in *. apply find_some in Hm as [Hin _].
  apply (find_none _ _ Hgone) in Hin. rewrite E, String.eqb_refl in Hin. discriminate.
Qed.

(** X25.  In a quiet store with unique message identities, neither delete
    path ever writes to a chat: the pointer of the owning chat is left as
    it was whether or not the deleted message was the recorded last one. *)
Lemma delete_never_repoints (io : bool) (reqUser : User) (id : string) (w : World) :
  sched w = [] ->
  castObjectId id = Some id ->
  List.NoDup (map msg_id (messages w)) ->
  chats (snd (delete_route io reqUser id w)) = chats w
  /\ (forall socket chatId, chats (snd (delete_message socket id chatId w)) = chats w).
Proof.
  intros Hq Hc Hnd.
  set (w1 := set_messages (removeFirst (fun m => msg_id m =? id) (messages w)) w).
  assert (Hq1 : sched w1 = []) by exact Hq.
  assert (Hgone : findMessage id (messages w1) = None).
  { unfold findMessage. simpl.
    apply (find_removeFirst_unique msg_id); trivial.
    intros x y Hx Hy. apply String.eqb_eq in Hx, Hy. congruence. }
  assert (Hdel : await (Message_deleteOne id) w = (inr tt, w1)).
  { rewrite (await_quiet _ _ Hq). unfold Message_deleteOne. now rewrite Hc. }
  assert (Hfind : await (Message_findById id) w = (inr (findMessage id (messages w)), w)).
  { rewrite (await_quiet _ _ Hq). unfold Message_findById. now rewrite Hc. }
  split.
  - unfold delete_route. cbv zeta.
    rewrite (try_catch_bind_ok _ _ _ _ _ _ Hfind).
    destruct (findMessage id (messages w)) as [m|]; trivial.
    destruct (negb (sender m =? user_id reqUser)); trivial.
    rewrite (try_catch_bind_ok _ _ _ _ _ _ Hdel).
    destruct (updateLastMessage_skipped (chatId m) id w1 Hq1 Hgone) as [[e He]|Hok].
    + now rewrite (try_catch_bind_err _ _ _ _ _ _ He).
    + rewrite (try_catch_bind_ok _ _ _ _ _ _ Hok).
      destruct (chatId m); [destruct io|]; reflexivity.
  - intros socket cid. unfold delete_message.
    rewrite (try_catch_bind_ok _ _ _ _ _ _ Hfind).
    destruct (findMessage id (messages w)) as [m|]; trivial.
    destruct (negb (sender m =? userId socket)); trivial.
    rewrite (try_catch_bind_ok _ _ _ _ _ _ Hdel).
    destruct (updateLastMessage_skipped (Some cid) id w1 Hq1 Hgone) as [[e He]|Hok].
    + now rewrite (try_catch_bind_err _ _ _ _ _ _ He).
    + now rewrite (try_catch_bind_ok _ _ _ _ _ _ Hok).
Qed.

Lemma delete_never_repoints_witness :
  chats (snd (delete_route true Sample.uBob "0000000000000000000000e2" Sample.talking))
  = [Sample.chatAB].
Proof.
  assert (Hn : List.NoDup (map msg_id (messages Sample.talking))).
  { repeat constructor; simpl; intuition discriminate. }
  exact (proj1 (delete_never_repoints true Sample.uBob "0000000000000000000000e2"
                  Sample.talking eq_refl eq_refl Hn)).
Defined.

(** X24.  The sender's delete is a hard delete: the message row is
    removed, on both paths, and nothing else of the messages changes. *)
Lemma delete_by_sender_removes (id : string) (m : Message) (w : World) :
  sched w = [] ->
  castObjectId id = Some id ->
  List.NoDup (map msg_id (messages w)) ->
  findMessage id (messages w) = Some m ->
  (forall io reqUser,
      sender m = user_id reqUser ->
      messages (snd (delete_route io reqUser id w))
      = removeFirst (fun x => msg_id x =? id) (messages w))
  /\ (forall socket chatId,
         sender m = userId socket ->
         messages (snd (delete_message socket id chatId w))
         = removeFirst (fun x => msg_id x =? id) (messages w)).
Proof.
  intros Hq Hc Hnd Hm.
  set (w1 := set_messages (removeFirst (fun x => msg_id x =? id) (messages w)) w).
  assert (Hq1 : sched w1 = []) by exact Hq.
  assert (Hgone : findMessage id (messages w1) = None).
  { unfold findMessage. simpl.
    apply (find_removeFirst_unique msg_id); trivial.
    intros x y Hx Hy. apply String.eqb_eq in Hx, Hy. congruence. }
  assert (Hdel : await (Message_deleteOne id) w = (inr tt, w1)).
  { rewrite (await_quiet _ _ Hq). unfold Message_deleteOne. now rewrite Hc. }
  assert (Hfind : await (Message_findById id) w = (inr (Some m), w)).
  { rewrite (await_quiet _ _ Hq). unfold Message_findById. now rewrite Hc, Hm. }
  split.
  - intros io reqUser Hs. unfold delete_route. cbv zeta.
    rewrite (try_catch_bind_ok _ _ _ _ _ _ Hfind).
    rewrite Hs, String.eqb_refl. cbn [negb].
    rewrite (try_catch_bind_ok _ _ _ _ _ _ Hdel).
    destruct (updateLastMessage_skipped (chatId m) id w1 Hq1 Hgone) as [[e He]|Hok].
    + now rewrite (try_catch_bind_err _ _ _ _ _ _ He).
    + rewrite (try_catch_bind_ok _ _ _ _ _ _ Hok).
      destruct (chatId m); [destruct io|]; reflexivity.
  - intros socket cid Hs. unfold delete_message.
    rewrite (try_catch_bind_ok _ _ _ _ _ _ Hfind).
    rewrite Hs, String.eqb_refl. cbn [negb].
    rewrite (try_catch_bind_ok _ _ _ _ _ _ Hdel).
    destruct (updateLastMessage_skipped (Some cid) id w1 Hq1 Hgone) as [[e He]|Hok].
    + now rewrite (try_catch_bind_err _ _ _ _ _ _ He).
    + now rewrite (try_catch_bind_ok _ _ _ _ _ _ Hok).
Qed.

Lemma delete_by_sender_removes_witness :
  messages (snd (delete_route true Sample.uBob "0000000000000000000000e2" Sample.talking))
  = [Sample.m1].
Proof.
  assert (Hn : List.NoDup (map msg_id (messages Sample.talking))).
  { repeat constructor; simpl; intuition discriminate. }
  exact (proj1 (delete_by_sender_removes "0000000000000000000000e2" Sample.m2
                  Sample.talking eq_refl eq_refl Hn eq_refl)
               true Sample.uBob eq_refl).
Defined.

(** * Further properties *)

(** ** Sorting *)

Lemma insertBy_perm {A} (cmp : A -> A -> Z) (x : A) (l : list A) :
  Permutation (insertBy cmp x l) (x :: l).
Proof.
  induction l as [|y l IH]; simpl; [apply Permutation_refl|].
  destruct (cmp x y <=? 0)%Z; [apply Permutation_refl|].
  eapply perm_trans; [apply perm_skip, IH | apply perm_swap].
Qed.

Lemma sortBy_perm {A} (cmp : A -> A -> Z) (l : list A) :
  Permutation (sortBy cmp l) l.
Proof.
  induction l as [|x l IH]; simpl; [apply perm_nil|].
  eapply perm_trans; [apply insertBy_perm | now apply perm_skip].
Qed.

Lemma in_sortBy_iff {A} (cmp : A -> A -> Z) (x : A) (l : list A) :
  In x (sortBy cmp l) <-> In x l.
Proof.
  split; apply Permutation_in; [|apply Permutation_sym]; apply sortBy_perm.
Qed.

Section SortedBy.

Context {A : Type} (cmp : A -> A -> Z).

Hypothesis cmp_total : forall x y, (0 < cmp x y)%Z -> (cmp y x <= 0)%Z.
Hypothesis cmp_trans :
  forall x y z, (cmp x y <= 0)%Z -> (cmp y z <= 0)%Z -> (cmp x z <= 0)%Z.

Lemma insertBy_sorted (x : A) (l : list A) :
  StronglySorted (fun a b => (cmp a b <= 0)%Z) l ->
  StronglySorted (fun a b => (cmp a b <= 0)%Z) (insertBy cmp x l).
Proof.
  induction l as [|y l IH]; simpl; intros Hs.
  - constructor; [constructor | constructor].
  - apply StronglySorted_inv in Hs as [Hl Hy].
    destruct (cmp x y <=? 0)%Z eqn:E.
    + apply Z.leb_le in E. constructor.
      * now constructor.
      * constructor; trivial.
        eapply List.Forall_impl; [|exact Hy]. intros z Hz. eapply cmp_trans; eauto.
    + apply Z.leb_gt in E. constructor; [now apply IH|].
      eapply Permutation_Forall; [symmetry; apply insertBy_perm|].
      constructor; trivial. now apply cmp_total.
Qed.

Lemma sortBy_sorted (l : list A) :
  StronglySorted (fun a b => (cmp a b <= 0)%Z) (sortBy cmp l).
Proof.
  induction l as [|x l IH]; simpl; [constructor | now apply insertBy_sorted].
Qed.

End SortedBy.

Lemma StronglySorted_map {A B} (f : A -> B) (R : B -> B -> Prop) (l : list A) :
  StronglySorted (fun a b => R (f a) (f b)) l -> StronglySorted R (map f l).
Proof.
  induction 1 as [|a l Hs IH Hf]; simpl; constructor; trivial.
  apply List.Forall_map. exact Hf.
Qed.

Lemma StronglySorted_impl {A} (R R' : A -> A -> Prop) (l : list A) :
  (forall a b, R a b -> R' a b) -> StronglySorted R l -> StronglySorted R' l.
Proof.
  intros HR. induction 1 as [|a l Hs IH Hf]; constructor; trivial.
  eapply List.Forall_impl; [|exact Hf]. intros b. apply HR.
Qed.

(** ** Handlers that answer whatever happens *)


(** ** Message history *)

Lemma find_exists {A} (p : A -> bool) (l : list A) (x : A) :
  In x l -> p x = true -> exists y, List.find p l = Some y.
Proof.
  intros Hin Hp. destruct (List.find p l) as [y|] eqn:E; [eauto|].
  rewrite (find_none _ _ E x Hin) in Hp. discriminate.
Qed.

Lemma memId_true (x : ObjectId) (l : list ObjectId) : In x l -> memId x l = true.
Proof. apply memId_In. Qed.

Lemma pm_message_populate (us : list User) (l : list Message) :
  map pm_message (map (populateMessage us) l) = l.
Proof. rewrite map_map. simpl. apply map_id. Qed.

(** X1.  A participant of a chat, active or not, is served the chat's
    messages: exactly the stored messages of that chat, each once, ordered
    by creation time, oldest first; the store is left as it was. *)
Theorem history_oldest_first (reqUser : User) (id : string) (oid : ObjectId)
        (c : Chat) (w : World) :
  sched w = [] ->
  castObjectId id = Some oid ->
  In c (chats w) -> chat_id c = oid -> In (user_id reqUser) (participants c) ->
  exists found,
    history_route reqUser id w = (inr (HistoryOk found), w)
    /\ StronglySorted (fun a b => (msg_createdAt a <= msg_createdAt b)%Z)
                      (map pm_message found)
    /\ Permutation (map pm_message found) (messagesOfChat oid (messages w))
    /\ (forall m, In m (map pm_message found) <->
                  In m (messages w) /\ chatId m = Some oid).
Proof.
  intros Hq Hc Hin Hid Hp.
  assert (Hfind : exists d, await (Chat_findOne_member id (user_id reqUser)) w
                            = (inr (Some d), w)).
  { rewrite (await_quiet _ _ Hq). unfold Chat_findOne_member. rewrite Hc.
    destruct (find_exists (fun c0 => (chat_id c0 =? oid)
                                     && memId (user_id reqUser) (participants c0))
                          (chats w) c Hin) as [d Hd].
    - rewrite Hid, String.eqb_refl. simpl. now apply memId_true.
    - rewrite Hd. eauto. }
  destruct Hfind as [d Hfind].
  exists (map (populateMessage (users w))
              (sortBy byAge (messagesOfChat oid (messages w)))).
  split; [|split; [|split]].
  - unfold history_route. rewrite (try_catch_bind_ok _ _ _ _ _ _ Hfind).
    cbv beta iota. unfold try_catch, bind. rewrite (await_quiet _ _ Hq).
    unfold Message_findByChat. now rewrite Hc.
  - rewrite pm_message_populate.
    eapply StronglySorted_impl; [|apply (sortBy_sorted byAge)].
    + intros a b H. unfold byAge in H. lia.
    + intros x y. unfold byAge. lia.
    + intros x y z. unfold byAge. lia.
  - rewrite pm_message_populate. apply sortBy_perm.
  - intros m. rewrite pm_message_populate.
    rewrite in_sortBy_iff.
    unfold messagesOfChat. rewrite filter_In. unfold optEqb.
    destruct (chatId m) as [x|]; [|intuition discriminate].
    rewrite String.eqb_eq. intuition congruence.
Qed.

Lemma history_oldest_first_witness :
  exists found,
    history_route Sample.uAlice "0000000000000000000000c1" Sample.talking
    = (inr (HistoryOk found), Sample.talking)
    /\ map pm_message found = [Sample.m1; Sample.m2].
Proof.
  destruct (history_oldest_first Sample.uAlice "0000000000000000000000c1"
              "0000000000000000000000c1" Sample.chatAB Sample.talking)
    as (found & Hr & _); try reflexivity; try (simpl; tauto).
  exists found. split; [exact Hr|].
  unfold Sample.talking in Hr. vm_compute in Hr. injection Hr as <-. reflexivity.
Defined.

(** X2.  A user who is not a participant of the chat named, or who names
    no stored chat, is answered 404 and shown no message; an identifier
    that is no ObjectId is answered 500.  Nothing is written. *)
Theorem history_denied (reqUser : User) (id : string) (w : World) :
  sched w = [] ->
  (forall c, In c (chats w) -> castObjectId id = Some (chat_id c) ->
             ~ In (user_id reqUser) (participants c)) ->
  history_route reqUser id w
  = (inr (match castObjectId id with
          | Some _ => HistoryFail 404 "Chat not found or access denied"
          | None => HistoryFail 500 "Server error while fetching messages"
          end), w).
Proof.
  intros Hq Hno. unfold history_route, try_catch, bind.
  rewrite (await_quiet _ _ Hq). unfold Chat_findOne_member.
  destruct (castObjectId id) as [oid|] eqn:Hc; trivial.
  destruct (List.find _ (chats w)) as [c|] eqn:Hf; trivial.
  exfalso. apply find_some in Hf as [Hin Hp].
  apply andb_true_iff in Hp as [Hid Hm].
  apply String.eqb_eq in Hid. apply memId_In in Hm.
  apply (Hno c Hin); [now rewrite Hid | exact Hm].
Qed.

Lemma history_denied_witness :
  history_route Sample.uCarol "0000000000000000000000c1" Sample.talking
  = (inr (HistoryFail 404 "Chat not found or access denied"), Sample.talking).
Proof.
  apply (history_denied Sample.uCarol "0000000000000000000000c1" Sample.talking);
    [reflexivity|].
  intros c [<-|[]] _. simpl. intros [H|[H|[]]]; discriminate H.
Defined.

(** ** Rooms *)

Lemma envStep_joined (op : EnvOp) (w : World) : joined (envStep op w) = joined w.
Proof.
  destruct op; simpl; trivial.
  - now destruct (existsb _ _).
  - unfold Chat_save_new. destruct (preValidate c); trivial.
    now destruct (existsb _ _).
  - unfold Message_save. destruct (validateMessage m); trivial.
    now destruct (existsb _ _).
Qed.

Lemma settle_joined (w : World) : joined (settle w) = joined w.
Proof.
  unfold settle. destruct (sched w) as [|t rest]; trivial.
  change (joined w) with (joined (set_sched rest w)).
  generalize (set_sched rest w). induction (before t) as [|op ops IH]; intros w0; trivial.
  simpl. unfold envSteps in IH. rewrite IH. apply envStep_joined.
Qed.

(** X3.  [join_chat] always answers, and it subscribes the socket to the
    chat's room only when, at the time of the lookup, the chat is stored,
    active and has the socket's user among its participants; every other
    outcome is an error event and leaves the socket's rooms as they were. *)
Theorem join_chat_sound (socket : Socket) (id : string) (w : World) :
  (exists c,
      fst (join_chat socket id w) = inr (joined_chat id)
      /\ In c (chats (settle w))
      /\ castObjectId id = Some (chat_id c)
      /\ isActive c = true
      /\ In (userId socket) (participants c)
      /\ joined (snd (join_chat socket id w))
         = joined (joinRoom (socketId socket) ("chat_" ++ id) w))
  \/ ((exists msg, fst (join_chat socket id w) = inr (room_error msg))
      /\ joined (snd (join_chat socket id w)) = joined w).
Proof.
  unfold join_chat, try_catch, bind. rewrite await_settle.
  destruct (headFault w) as [e|].
  { right. simpl. split; [eauto | apply settle_joined]. }
  unfold Chat_findOne_activeMember.
  destruct (castObjectId id) as [oid|] eqn:Hc.
  2:{ right. simpl. split; [eauto | apply settle_joined]. }
  destruct (List.find _ (chats (settle w))) as [c|] eqn:Hf.
  2:{ right. simpl. split; [eauto | apply settle_joined]. }
  left. exists c. apply find_some in Hf as [Hin Hp].
  apply andb_true_iff in Hp as [Hp Hact]. apply andb_true_iff in Hp as [Hid Hm].
  apply String.eqb_eq in Hid. apply memId_In in Hm. subst oid.
  repeat split; trivial.
  simpl. unfold joinRoom. rewrite settle_joined.
  destruct (existsb _ (joined w)); [apply settle_joined | reflexivity].
Qed.

Lemma filter_not_member {A} (p : A -> bool) (l : list A) :
  existsb p l = false -> List.filter (fun x => negb (p x)) l = l.
Proof.
  induction l as [|x l IH]; simpl; trivial.
  intros H. apply orb_false_iff in H as [Hx Hl]. rewrite Hx. simpl. now rewrite IH.
Qed.

(** X4.  Leaving removes the socket from that room and from no other;
    a join followed by a leave puts a socket that was not in the room back
    to the rooms it had. *)
Theorem leave_chat_undoes_join (socket : Socket) (id : string) (w : World) :
  (forall p, In p (joined (snd (leave_chat socket id w)))
             <-> In p (joined w) /\ p <> (socketId socket, ("chat_" ++ id)%string))
  /\ (existsb (inRoom (socketId socket) ("chat_" ++ id)) (joined w) = false ->
      joined (snd (leave_chat socket id (joinRoom (socketId socket) ("chat_" ++ id) w)))
      = joined w).
Proof.
  split.
  - intros [s r]. unfold leave_chat, leaveRoom, bind, modify. simpl.
    rewrite filter_In. unfold inRoom. simpl.
    split; intros [Hin Hp]; split; trivial.
    + intros E. injection E as -> ->. now rewrite !String.eqb_refl in Hp.
    + apply negb_true_iff, andb_false_iff.
      destruct (s =? socketId socket) eqn:Es; [|now left].
      destruct (r =? ("chat_" ++ id)%string) eqn:Er; [|now right].
      apply String.eqb_eq in Es, Er. congruence.
  - intros Hno. unfold leave_chat, leaveRoom, joinRoom, bind, modify. rewrite Hno. simpl.
    rewrite List.filter_app, (filter_not_member _ _ Hno). simpl.
    unfold inRoom. simpl. rewrite !String.eqb_refl. simpl. apply app_nil_r.
Qed.

Lemma leave_chat_undoes_join_witness :
  joined (snd (leave_chat Sample.sAlice "0000000000000000000000c1"
                 (joinRoom "s1" "chat_0000000000000000000000c1" Sample.fresh)))
  = joined Sample.fresh.
Proof.
  apply (proj2 (leave_chat_undoes_join Sample.sAlice "0000000000000000000000c1"
                  Sample.fresh)).
  reflexivity.
Defined.

(** ** Presence *)

Lemma disconnect_effect (socket : Socket) (w : World) :
  headFault w = None ->
  activeUsers (snd (disconnect socket w)) = delete (userId socket) (activeUsers w)
  /\ outbox (snd (disconnect socket w))
     = outbox w ++ [(BroadcastFrom (socketId socket),
                     user_offline (userId socket) (username (user socket)))].
Proof.
  intros Hf. unfold disconnect, bind, modify, now.
  rewrite await_settle.
  set (wa := set_activeUsers (delete (userId socket) (activeUsers w)) w).
  change (headFault wa) with (headFault w). rewrite Hf.
  destruct (settle_presence wa) as [Ha Ho].
  unfold User_setPresence, modify, emit. simpl.
  now rewrite Ha, Ho.
Qed.

(** X5.  The registry holds one entry per user.  A second connection
    of the same user replaces the entry of the first, as if the first had
    never registered, while both sockets sit in the personal room; a
    disconnect right after a connection leaves the user with no entry at
    all, whatever entry the user had before. *)
Theorem registry_one_entry_per_user (s1 s2 : Socket) (w : World) :
  userId s1 = userId s2 ->
  activeUsers (snd (connection s2 (snd (connection s1 w))))
  = <[userId s2 := mkActiveUser (socketId s2) (user s2) (clock w)]> (activeUsers w)
  /\ joined (snd (connection s2 (snd (connection s1 w))))
     = joined w ++ [(socketId s1, ("user_" ++ userId s1)%string);
                    (socketId s2, ("user_" ++ userId s2)%string)]
  /\ (headFault w = None ->
      activeUsers (snd (disconnect s1 (snd (connection s1 w))))
      = delete (userId s1) (activeUsers w)
      /\ outbox (snd (disconnect s1 (snd (connection s1 w))))
         = outbox w
           ++ [(BroadcastFrom (socketId s1),
                user_online (userId s1) (username (user s1)) (avatar (user s1)));
               (BroadcastFrom (socketId s1),
                user_offline (userId s1) (username (user s1)))]).
Proof.
  intros Hu. split; [|split].
  - unfold connection, bind, modify, now, User_setPresence, emit. simpl.
    rewrite Hu. apply insert_insert_eq.
  - unfold connection, bind, modify, now, User_setPresence, emit. simpl.
    now rewrite <- app_assoc.
  - intros Hf.
    destruct (disconnect_effect s1 (snd (connection s1 w)) Hf)
      as (Ha & Ho).
    rewrite Ha, Ho. split.
    + unfold connection, bind, modify, now, User_setPresence, emit. simpl.
      apply delete_insert_eq.
    + unfold connection, bind, modify, now, User_setPresence, emit. simpl.
      now rewrite <- app_assoc.
Qed.

Lemma registry_one_entry_per_user_witness :
  activeUsers (snd (connection Sample.sAlice2 (snd (connection Sample.sAlice Sample.fresh))))
  = <[Sample.alice := mkActiveUser "s2" Sample.uAlice 1000]> (activeUsers Sample.fresh).
Proof.
  exact (proj1 (registry_one_entry_per_user Sample.sAlice Sample.sAlice2 Sample.fresh
                  eq_refl)).
Defined.

Lemma envStep_set_activeUsers (a : gmap string ActiveUser) (op : EnvOp) (w : World) :
  envStep op (set_activeUsers a w) = set_activeUsers a (envStep op w).
Proof.
  destruct op; simpl; trivial.
  - now destruct (existsb _ _).
  - unfold Chat_save_new. simpl. destruct (preValidate c); trivial.
    now destruct (existsb _ _).
  - unfold Message_save. simpl. destruct (validateMessage m); trivial.
    now destruct (existsb _ _).
Qed.

Lemma settle_set_activeUsers (a : gmap string ActiveUser) (w : World) :
  settle (set_activeUsers a w) = set_activeUsers a (settle w).
Proof.
  unfold settle. simpl. destruct (sched w) as [|t rest]; trivial.
  change (set_sched rest (set_activeUsers a w))
    with (set_activeUsers a (set_sched rest w)).
  generalize (set_sched rest w). unfold envSteps.
  induction (before t) as [|op ops IH]; intros w0; trivial.
  simpl. now rewrite envStep_set_activeUsers, IH.
Qed.

(** X6.  When the presence write of a disconnect is rejected, the handler
    stops there: the registry entry is already gone, the stored user keeps
    the online flag it had and no [user_offline] is broadcast. *)
Theorem disconnect_write_fails (socket : Socket) (e : Error) (w : World) :
  headFault w = Some e ->
  fst (disconnect socket w) = inl e
  /\ activeUsers (snd (disconnect socket w)) = delete (userId socket) (activeUsers w)
  /\ users (snd (disconnect socket w)) = users (settle w)
  /\ outbox (snd (disconnect socket w)) = outbox w.
Proof.
  intros Hf. unfold disconnect, bind, modify, now. rewrite await_settle.
  set (wa := set_activeUsers (delete (userId socket) (activeUsers w)) w).
  change (headFault wa) with (headFault w). rewrite Hf. simpl.
  destruct (settle_presence wa) as [Ha Ho]. rewrite Ha, Ho.
  repeat split. unfold wa. now rewrite settle_set_activeUsers.
Qed.

Lemma disconnect_write_fails_witness :
  fst (disconnect Sample.sAlice
         (set_sched [mkTurn [] (Some castError)] Sample.twoSessions))
  = inl castError.
Proof.
  exact (proj1 (disconnect_write_fails Sample.sAlice castError
                  (set_sched [mkTurn [] (Some castError)] Sample.twoSessions) eq_refl)).
Defined.

(** ** Errors never escape the handlers that catch *)


(** ** Requests that name no stored message *)

(** X8.  Marking as read a message that is not stored, or naming an
    identifier that is no ObjectId, changes nothing and emits nothing;
    when the message is stored, the read receipt goes to its sender's
    personal room and carries the instant of the call. *)
Theorem mark_read_missing_is_noop (id : string) (w : World) :
  sched w = [] ->
  (resolveMessage id (messages w) = None -> mark_message_read id w = (inr tt, w))
  /\ (forall m, resolveMessage id (messages w) = Some m ->
                outbox (snd (mark_message_read id w))
                = outbox w ++ [(ToRoom ("user_" ++ sender m),
                                message_read (msg_id m) (Some (clock w)))]).
Proof.
  intros Hq. unfold resolveMessage, mark_message_read, try_catch, bind, now.
  rewrite (await_quiet _ _ Hq). unfold Message_markRead.
  destruct (castObjectId id) as [oid|]; [|split; [trivial | discriminate]].
  destruct (findMessage oid (messages w)) as [m|]; split; try discriminate; trivial.
  intros m' E. injection E as <-. reflexivity.
Qed.

Lemma mark_read_missing_is_noop_witness :
  mark_message_read "0000000000000000000000ff" Sample.talking = (inr tt, Sample.talking).
Proof.
  apply (proj1 (mark_read_missing_is_noop "0000000000000000000000ff" Sample.talking
                  eq_refl)).
  reflexivity.
Defined.

(** X9.  Deleting a message that is not stored is answered "Message not
    found" (an error event on the socket, status 404 on the route) and
    writes nothing. *)
Theorem delete_missing_not_found (id : string) (oid : ObjectId) (w : World) :
  sched w = [] ->
  castObjectId id = Some oid ->
  findMessage oid (messages w) = None ->
  (forall socket c,
      delete_message socket id c w
      = (inr tt, set_outbox (outbox w ++ [(ToSocket (socketId socket),
                                           error_event "Message not found")]) w))
  /\ (forall io reqUser,
         delete_route io reqUser id w
         = (inr (mkResponse 404 false "Message not found" NoBody), w)).
Proof.
  intros Hq Hc Hm.
  assert (Hfind : await (Message_findById id) w = (inr None, w)).
  { rewrite (await_quiet _ _ Hq). unfold Message_findById. now rewrite Hc, Hm. }
  split; intros.
  - unfold delete_message. now rewrite (try_catch_bind_ok _ _ _ _ _ _ Hfind).
  - unfold delete_route. cbv zeta. now rewrite (try_catch_bind_ok _ _ _ _ _ _ Hfind).
Qed.

Lemma delete_missing_not_found_witness :
  delete_route true Sample.uAlice "0000000000000000000000ff" Sample.talking
  = (inr (mkResponse 404 false "Message not found" NoBody), Sample.talking).
Proof.
  exact (proj2 (delete_missing_not_found "0000000000000000000000ff"
                  "0000000000000000000000ff" Sample.talking eq_refl eq_refl eq_refl)
               true Sample.uAlice).
Defined.

(** ** Requests rejected before the store is read *)

(** X10.  A REST request that fails its input checks (a receiver
    identifier that is not 24 hexadecimal characters, an empty or
    over-long body, a missing receiver on upload) is answered 400 without
    a single store call: the world, its pending schedule included, is
    untouched. *)
Theorem malformed_request_touches_nothing (w : World) :
  (forall reqUser receiverId content t,
      isMongoId receiverId = false \/ content = ""
      \/ (1000 < String.length content)%nat ->
      exists errors,
        errors <> []
        /\ post_message reqUser receiverId content t w
           = (inr (mkResponse 400 false "Validation failed" (ErrorsBody errors)), w))
  /\ (forall reqUser receiverId,
         isMongoId receiverId = false ->
         post_chat_create reqUser receiverId w
         = (inr (mkResponse 400 false "Validation failed"
                            (ErrorsBody ["Invalid receiver ID"])), w))
  /\ (forall io url reqUser file receiverId,
         receiverId = None \/ receiverId = Some "" ->
         post_upload io url reqUser receiverId file w
         = (inr (mkResponse 400 false "receiverId is required" NoBody), w)).
Proof.
  repeat split.
  - intros reqUser receiverId content t H.
    exists (validateSend receiverId content).
    assert (Hne : validateSend receiverId content <> []).
    { unfold validateSend. destruct H as [H|[H|H]].
      - rewrite H. discriminate.
      - subst content. simpl. destruct (isMongoId receiverId); discriminate.
      - apply Nat.ltb_lt in H. rewrite H.
        destruct (isMongoId receiverId); simpl;
          destruct (String.length content =? 0)%nat; discriminate. }
    split; trivial. unfold post_message.
    destruct (validateSend receiverId content); [contradiction | reflexivity].
  - intros reqUser receiverId H. unfold post_chat_create. now rewrite H.
  - intros io url reqUser file receiverId [-> | ->]; reflexivity.
Qed.

Lemma malformed_request_touches_nothing_witness :
  post_chat_create Sample.uAlice "bob" (set_sched Sample.raceTurns Sample.fresh)
  = (inr (mkResponse 400 false "Validation failed" (ErrorsBody ["Invalid receiver ID"])),
     set_sched Sample.raceTurns Sample.fresh).
Proof.
  exact (proj1 (proj2 (malformed_request_touches_nothing
                         (set_sched Sample.raceTurns Sample.fresh)))
               Sample.uAlice "bob" eq_refl).
Defined.

(** ** The pair key and the schema hook *)

Lemma append_inj_len (a c b d : string) :
  String.length a = String.length c ->
  (a ++ b)%string = (c ++ d)%string -> a = c /\ b = d.
Proof.
  revert c. induction a as [|x a IH]; intros [|y c] Hlen; simpl in *;
    try discriminate; auto.
  intros E. injection E as -> E. injection Hlen as Hlen.
  destruct (IH c Hlen E) as [-> ->]. auto.
Qed.

Lemma isMongoId_length (s : string) : isMongoId s = true -> String.length s = 24%nat.
Proof.
  unfold isMongoId. intros H. apply andb_true_iff in H as [H _].
  now apply Nat.eqb_eq.
Qed.

(** X11.  Two pairs of ObjectIds share a pair key only when they are the
    same unordered pair: the key never files two different pairs of users
    under one chat. *)
Theorem pairKey_injective (a b c d : ObjectId) :
  isMongoId a = true -> isMongoId b = true ->
  isMongoId c = true -> isMongoId d = true ->
  PairKey.participantsKey a b = PairKey.participantsKey c d ->
  (a = c /\ b = d) \/ (a = d /\ b = c).
Proof.
  intros Ha Hb Hc Hd. apply isMongoId_length in Ha, Hb, Hc, Hd.
  rewrite !participantsKey_sortedPair. unfold PairKey.sortedPair.
  destruct (String.leb a b), (String.leb c d); simpl; intros E;
    apply append_inj_len in E as [E1 E2]; try congruence;
    injection E2 as E2; auto.
Qed.

Lemma pairKey_injective_witness :
  (Sample.alice = Sample.bob /\ Sample.bob = Sample.alice)
  \/ (Sample.alice = Sample.alice /\ Sample.bob = Sample.bob).
Proof.
  exact (pairKey_injective Sample.alice Sample.bob Sample.bob Sample.alice
           eq_refl eq_refl eq_refl eq_refl eq_refl).
Defined.

Lemma sort_pair_idem (a b : string) :
  PairKey.sort (PairKey.sort [a; b]) = PairKey.sort [a; b].
Proof.
  rewrite !sort_pair. destruct (String.leb a b) eqn:Hab; rewrite sort_pair.
  - now rewrite Hab.
  - destruct (String.leb b a) eqn:Hba; trivial.
    destruct (String.leb_total a b); congruence.
Qed.

(** X12.  The validate hook rejects a chat unless it has exactly two
    participants.  Otherwise it stores the participants in sorted order
    under their pair key, whichever order they came in, touches no other
    field, and is a fixed point on its own result; on a validated chat the
    virtual [chatId] is the stored key. *)
Theorem validate_hook_canonical (c : Chat) :
  (List.length (participants c) <> 2%nat ->
   preValidate c = inl (hookError "Chat must have exactly 2 participants"))
  /\ (forall a b,
         participants c = [a; b] \/ participants c = [b; a] ->
         exists c',
           preValidate c = inr c'
           /\ participants c' = PairKey.sortedParticipants a b
           /\ participantsKey c' = PairKey.participantsKey a b
           /\ (chat_id c', lastMessage c', lastMessageAt c', isActive c', chat_createdAt c')
              = (chat_id c, lastMessage c, lastMessageAt c, isActive c, chat_createdAt c)
           /\ preValidate c' = inr c'
           /\ virtualChatId c' = participantsKey c'
           /\ virtualChatId c = participantsKey c').
Proof.
  split.
  - intros H. unfold preValidate. apply Nat.eqb_neq in H. now rewrite H.
  - intros a b Hp.
    assert (Hs : PairKey.sort (participants c) = PairKey.sort [a; b]).
    { destruct Hp as [-> | ->]; [reflexivity | apply sort_pair_swap]. }
    assert (Hl : List.length (participants c) = 2%nat).
    { now destruct Hp as [-> | ->]. }
    exists (chat_set_key (PairKey.sort [a; b]) (PairKey.join "_" (PairKey.sort [a; b])) c).
    unfold preValidate, virtualChatId. rewrite Hl, Hs. simpl Nat.eqb. cbv iota zeta.
    split; [reflexivity|]. split; [reflexivity|]. split; [reflexivity|].
    split; [reflexivity|]. split; [|split].
    + cbn [participants chat_set_key]. rewrite sort_pair_idem.
      now destruct (String.leb a b).
    + cbn [participants chat_set_key participantsKey]. now rewrite sort_pair_idem.
    + reflexivity.
Qed.

Lemma validate_hook_canonical_witness :
  exists c', preValidate Sample.bobsChat = inr c' /\ participantsKey c' = Sample.keyAB.
Proof.
  destruct (proj2 (validate_hook_canonical Sample.bobsChat) Sample.alice Sample.bob
                  (or_intror eq_refl)) as (c' & H1 & _ & H3 & _).
  exists c'. split; [exact H1 | exact H3].
Defined.

(** ** First contact *)

Lemma find_app_miss {A} (p : A -> bool) (l l' : list A) :
  List.find p l = None -> List.find p (l ++ l') = List.find p l'.
Proof.
  induction l as [|x l IH]; simpl; trivial.
  destruct (p x); [discriminate | exact IH].
Qed.



Lemma createChat_fresh (w : World) (a b : string) (a' b' : ObjectId) :
  sched w = [] ->
  castObjectId a = Some a' -> castObjectId b = Some b' ->
  findChatByKey (PairKey.participantsKey a' b') (chats w) = None ->
  findChatById (oidOfCounter (oidCounter w)) (chats w) = None ->
  createChat a b w
  = (inr (createdChat w a' b'),
     set_chats (chats w ++ [createdChat w a' b']) (set_oidCounter (oidCounter w + 1)%N w)).
Proof.
  intros Hq Ha Hb Hk Hid. unfold createChat, newObjectId, now, bind.
  rewrite Ha, Hb. rewrite await_quiet by exact Hq.
  unfold Chat_save_new, preValidate. cbn [participants List.length Nat.eqb].
  cbn [chat_set_createdAt chat_set_key participantsKey chat_id clock chats
       set_oidCounter participants lastMessage lastMessageAt isActive].
  replace (existsb _ (chats w)) with false; [reflexivity|].
  symmetry. apply not_true_is_false. intros H.
  apply existsb_exists in H as (d & Hin & Hd). apply orb_true_iff in Hd as [Hd|Hd].
  - unfold findChatByKey in Hk. apply (find_none _ _ Hk) in Hin.
    unfold PairKey.participantsKey, PairKey.sortedParticipants in Hin. congruence.
  - unfold findChatById in Hid. apply (find_none _ _ Hid) in Hin. simpl in Hin. congruence.
Qed.

Lemma createChat_conflict (w : World) (a b : string) (a' b' : ObjectId) (c : Chat) :
  sched w = [] ->
  castObjectId a = Some a' -> castObjectId b = Some b' ->
  findChatByKey (PairKey.participantsKey a' b') (chats w) = Some c ->
  createChat a b w = (inl duplicateKeyError, set_oidCounter (oidCounter w + 1)%N w).
Proof.
  intros Hq Ha Hb Hk. unfold createChat, newObjectId, now, bind.
  rewrite Ha, Hb. rewrite await_quiet by exact Hq.
  unfold Chat_save_new, preValidate. cbn [participants List.length Nat.eqb].
  cbn [chat_set_createdAt chat_set_key participantsKey chat_id clock chats
       set_oidCounter participants lastMessage lastMessageAt isActive].
  replace (existsb _ (chats w)) with true; [reflexivity|].
  symmetry. apply existsb_exists. unfold findChatByKey in Hk.
  apply find_some in Hk as [Hin Hd]. exists c. split; trivial.
  unfold PairKey.participantsKey, PairKey.sortedParticipants in Hd.
  now rewrite Hd.
Qed.

Lemma resolveChat_creates (w : World) (s r : string) (s' r' : ObjectId) :
  sched w = [] ->
  castObjectId s = Some s' -> castObjectId r = Some r' ->
  findChatByKey (PairKey.participantsKey s r) (chats w) = None ->
  findChatByKey (PairKey.participantsKey s' r') (chats w) = None ->
  findChatById (oidOfCounter (oidCounter w)) (chats w) = None ->
  resolveChat s r w
  = (inr (createdChat w s' r'),
     set_chats (chats w ++ [createdChat w s' r']) (set_oidCounter (oidCounter w + 1)%N w)).
Proof.
  intros Hq Hs Hr Hraw Hk Hid. unfold resolveChat. cbv zeta.
  unfold bind at 1. rewrite await_quiet by exact Hq. unfold Chat_findOne.
  unfold PairKey.participantsKey, PairKey.sortedParticipants in Hraw. rewrite Hraw.
  unfold try_catch. now rewrite (createChat_fresh w s r s' r' Hq Hs Hr Hk Hid).
Qed.

Lemma resolveChat_stuck (w : World) (s r : string) (s' r' : ObjectId) (c : Chat) :
  sched w = [] ->
  castObjectId s = Some s' -> castObjectId r = Some r' ->
  findChatByKey (PairKey.participantsKey s r) (chats w) = None ->
  findChatByKey (PairKey.participantsKey s' r') (chats w) = Some c ->
  resolveChat s r w = (inl duplicateKeyError, set_oidCounter (oidCounter w + 1)%N w).
Proof.
  intros Hq Hs Hr Hraw Hk. unfold resolveChat. cbv zeta.
  unfold bind at 1. rewrite await_quiet by exact Hq. unfold Chat_findOne.
  unfold PairKey.participantsKey, PairKey.sortedParticipants in Hraw. rewrite Hraw.
  unfold try_catch. rewrite (createChat_conflict w s r s' r' c Hq Hs Hr Hk).
  cbn [isDuplicateKey duplicateKeyError err_code].
  change (11000 =? 11000)%Z with true. cbv iota.
  unfold bind. rewrite await_quiet by exact Hq. cbn [chats set_oidCounter].
  now rewrite Hraw.
Qed.

Section FirstContact.

Variables (w : World) (senderId receiverId : string) (rid : ObjectId) (ru : User).

Hypothesis Hq : sched w = [].
Hypothesis Hs : castObjectId senderId = Some senderId.
Hypothesis Hr : castObjectId receiverId = Some rid.
Hypothesis Hru : findUser rid (users w) = Some ru.
Hypothesis Hraw :
  findChatByKey (PairKey.participantsKey senderId receiverId) (chats w) = None.
Hypothesis Hkey :
  findChatByKey (PairKey.participantsKey senderId rid) (chats w) = None.
Hypothesis Hid : findChatById (oidOfCounter (oidCounter w)) (chats w) = None.

Let c := createdChat w senderId rid.
Let w1 := set_chats (chats w ++ [c]) (set_oidCounter (oidCounter w + 1)%N w).

Lemma first_find : await (User_findById receiverId) w = (inr (Some ru), w).
Proof. rewrite (User_findById_quiet _ _ Hq), Hr, Hru. reflexivity. Qed.

Lemma first_resolve : resolveChat senderId receiverId w = (inr c, w1).
Proof. now apply resolveChat_creates. Qed.



End FirstContact.




Lemma Message_save_rejects (m : Message) (w : World) :
  trim (content m) = "" \/ isMessageType (messageType m) = false ->
  exists e, Message_save m w = (inl e, w).
Proof.
  intros H. unfold Message_save, validateMessage. cbv zeta.
  destruct (String.length (trim (content m)) =? 0)%nat eqn:H0; [eauto|].
  destruct (1000 <? String.length (trim (content m)))%nat; [eauto|].
  destruct H as [H|H].
  - rewrite H in H0. discriminate.
  - rewrite H. cbn [negb]. eauto.
Qed.

Lemma persistMessage_rejects (s r content mt : string) (c : Chat) (w : World) :
  sched w = [] ->
  trim content = "" \/ isMessageType mt = false ->
  exists e, persistMessage s r content mt c w
            = (inl e, set_oidCounter (oidCounter w + 1)%N w).
Proof.
  intros Hq H. unfold persistMessage, newMessage, newObjectId.
  unfold bind at 1. unfold bind at 1. unfold ret at 1.
  destruct (Message_save_rejects
              (mkMessage (oidOfCounter (oidCounter w)) s (castObjectId r) content mt
                         false None (Some (chat_id c)) false 0)
              (set_oidCounter (oidCounter w + 1)%N w) H) as [e He].
  exists e. unfold bind. rewrite await_quiet by exact Hq. now rewrite He.
Qed.

(** X14.  The chat is created before the message is checked.  On a quiet
    store where the pair has no chat yet, an upload without a file is
    answered 400, and a message the schema rejects (blank after trimming,
    or of an unknown type) is answered 500 by [POST /] and with an error
    event by the socket handler; each time the new, empty chat stays in the
    store. *)
Theorem rejected_send_still_creates_chat (w : World) (senderId receiverId : string)
        (rid : ObjectId) (ru : User) :
  sched w = [] ->
  castObjectId senderId = Some senderId ->
  castObjectId receiverId = Some rid ->
  findUser rid (users w) = Some ru ->
  findChatByKey (PairKey.participantsKey senderId receiverId) (chats w) = None ->
  findChatByKey (PairKey.participantsKey senderId rid) (chats w) = None ->
  findChatById (oidOfCounter (oidCounter w)) (chats w) = None ->
  let created := chats w ++ [createdChat w senderId rid] in
  (forall io socketUrl reqUser,
      user_id reqUser = senderId ->
      post_upload io socketUrl reqUser (Some receiverId) None w
      = (inr (mkResponse 400 false "No file uploaded" NoBody),
         set_chats created (set_oidCounter (oidCounter w + 1)%N w)))
  /\ (forall reqUser content mt,
         user_id reqUser = senderId ->
         validateSend receiverId content = [] ->
         trim content = "" \/ isMessageType (default "text" mt) = false ->
         post_message reqUser receiverId content mt w
         = (inr (mkResponse 500 false "Server error while sending message" NoBody),
            set_chats created (set_oidCounter (oidCounter w + 1 + 1)%N w)))
  /\ (forall socket content mt,
         userId socket = senderId ->
         trim content = "" \/ isMessageType (default "text" mt) = false ->
         send_message socket receiverId content mt w
         = (inr tt,
            set_outbox (outbox w ++ [(ToSocket (socketId socket),
                                      error_event "Error sending message")])
              (set_chats created (set_oidCounter (oidCounter w + 1 + 1)%N w)))).
Proof.
  intros Hq Hs Hr Hru Hraw Hkey Hid. cbv zeta.
  pose proof (first_find w receiverId rid ru Hq Hr Hru) as Hfind.
  pose proof (first_resolve w senderId receiverId rid Hq Hs Hr Hraw Hkey Hid) as Hres.
  split; [|split].
  - intros io socketUrl reqUser Hu. unfold post_upload. cbv zeta. rewrite Hu.
    destruct receiverId as [|a s]; [discriminate Hr|].
    rewrite (try_catch_bind_ok _ _ _ _ _ _ Hfind). cbv beta iota.
    rewrite (try_catch_bind_ok _ _ _ _ _ _ Hres). reflexivity.
  - intros reqUser content mt Hu Hv Hbad. unfold post_message. rewrite Hv.
    cbv zeta. rewrite Hu.
    rewrite (try_catch_bind_ok _ _ _ _ _ _ Hfind). cbv beta iota.
    rewrite (try_catch_bind_ok _ _ _ _ _ _ Hres).
    destruct (persistMessage_rejects senderId receiverId content (default "text" mt)
                (createdChat w senderId rid)
                (set_chats (chats w ++ [createdChat w senderId rid])
                           (set_oidCounter (oidCounter w + 1)%N w)) Hq Hbad) as [e He].
    rewrite (try_catch_bind_err _ _ _ _ _ _ He). reflexivity.
  - intros socket content mt Hu Hbad. unfold send_message. cbv zeta. rewrite Hu.
    rewrite (try_catch_bind_ok _ _ _ _ _ _ Hfind). cbv beta iota.
    rewrite (try_catch_bind_ok _ _ _ _ _ _ Hres).
    destruct (persistMessage_rejects senderId receiverId content (default "text" mt)
                (createdChat w senderId rid)
                (set_chats (chats w ++ [createdChat w senderId rid])
                           (set_oidCounter (oidCounter w + 1)%N w)) Hq Hbad) as [e He].
    rewrite (try_catch_bind_err _ _ _ _ _ _ He). reflexivity.
Qed.

Lemma rejected_send_still_creates_chat_witness :
  post_upload true "http://localhost:5000" Sample.uAlice (Some Sample.bob) None Sample.fresh
  = (inr (mkResponse 400 false "No file uploaded" NoBody),
     set_chats [createdChat Sample.fresh Sample.alice Sample.bob]
               (set_oidCounter 2 Sample.fresh)).
Proof.
  exact (proj1 (rejected_send_still_creates_chat Sample.fresh Sample.alice Sample.bob
                  Sample.bob Sample.uBob eq_refl eq_refl eq_refl eq_refl eq_refl
                  eq_refl eq_refl)
               true "http://localhost:5000" Sample.uAlice eq_refl).
Defined.

(** X15.  A receiver id written with an upper-case hexadecimal digit is
    accepted by the validators and resolves to the user, but the handlers
    look the chat up under the key built from the id as sent, while the
    stored key is built from the cast (lower-case) ids.  Once the pair has
    a chat, every path that resolves the chat with such an id fails: the
    lookup misses, the creation hits the unique index, and the re-read
    misses again.  Nothing is written. *)
Theorem mixed_case_receiver_fails (w : World) (senderId receiverId : string)
        (rid : ObjectId) (ru : User) (c : Chat) :
  sched w = [] ->
  castObjectId senderId = Some senderId ->
  castObjectId receiverId = Some rid ->
  findUser rid (users w) = Some ru ->
  findChatByKey (PairKey.participantsKey senderId rid) (chats w) = Some c ->
  findChatByKey (PairKey.participantsKey senderId receiverId) (chats w) = None ->
  let w1 := set_oidCounter (oidCounter w + 1)%N w in
  (forall socket content mt,
      userId socket = senderId ->
      send_message socket receiverId content mt w
      = (inr tt, set_outbox (outbox w ++ [(ToSocket (socketId socket),
                                           error_event "Error sending message")]) w1))
  /\ (forall reqUser content mt,
         user_id reqUser = senderId ->
         validateSend receiverId content = [] ->
         post_message reqUser receiverId content mt w
         = (inr (mkResponse 500 false "Server error while sending message" NoBody), w1))
  /\ (forall io socketUrl reqUser file,
         user_id reqUser = senderId ->
         post_upload io socketUrl reqUser (Some receiverId) file w
         = (inr (mkResponse 500 false "Server error while uploading message" NoBody), w1))
  /\ (forall reqUser,
         user_id reqUser = senderId ->
         post_chat_create reqUser receiverId w
         = (inr (mkResponse 500 false "Server error while creating chat" NoBody), w1)).
Proof.
  intros Hq Hs Hr Hru Hkey Hraw. cbv zeta.
  pose proof (first_find w receiverId rid ru Hq Hr Hru) as Hfind.
  pose proof (resolveChat_stuck w senderId receiverId senderId rid c Hq Hs Hr Hraw Hkey)
    as Hres.
  split; [|split; [|split]].
  - intros socket content mt Hu. unfold send_message. cbv zeta. rewrite Hu.
    rewrite (try_catch_bind_ok _ _ _ _ _ _ Hfind). cbv beta iota.
    rewrite (try_catch_bind_err _ _ _ _ _ _ Hres). reflexivity.
  - intros reqUser content mt Hu Hv. unfold post_message. rewrite Hv.
    cbv zeta. rewrite Hu.
    rewrite (try_catch_bind_ok _ _ _ _ _ _ Hfind). cbv beta iota.
    rewrite (try_catch_bind_err _ _ _ _ _ _ Hres). reflexivity.
  - intros io socketUrl reqUser file Hu. unfold post_upload. cbv zeta. rewrite Hu.
    destruct receiverId as [|a s]; [discriminate Hr|].
    rewrite (try_catch_bind_ok _ _ _ _ _ _ Hfind). cbv beta iota.
    rewrite (try_catch_bind_err _ _ _ _ _ _ Hres). reflexivity.
  - intros reqUser Hu. unfold post_chat_create.
    rewrite (castObjectId_isMongoId _ _ Hr). cbn [negb]. cbv zeta. rewrite Hu.
    rewrite (try_catch_bind_ok _ _ _ _ _ _ Hfind). cbv beta iota.
    assert (Hnull : resolveChatOrNull senderId receiverId w = (inr None, set_oidCounter (oidCounter w + 1)%N w)).
    { unfold resolveChatOrNull. cbv zeta.
      unfold bind at 1. rewrite await_quiet by exact Hq. unfold Chat_findOne.
      unfold PairKey.participantsKey, PairKey.sortedParticipants in Hraw.
      rewrite Hraw. unfold try_catch.
      rewrite (bind_err _ _ _ _ _ (createChat_conflict w senderId receiverId senderId
                                     rid c Hq Hs Hr Hkey)).
      cbn [isDuplicateKey duplicateKeyError err_code].
      change (11000 =? 11000)%Z with true. cbv iota.
      rewrite await_quiet by exact Hq. cbn [chats set_oidCounter].
      now rewrite Hraw. }
    rewrite (try_catch_bind_ok _ _ _ _ _ _ Hnull). reflexivity.
Qed.

Lemma mixed_case_receiver_fails_witness :
  castObjectId "BBBBBBBBBBBBBBBBBBBBBBBB" = Some Sample.bob
  /\ post_chat_create Sample.uAlice "BBBBBBBBBBBBBBBBBBBBBBBB" Sample.talking
     = (inr (mkResponse 500 false "Server error while creating chat" NoBody),
        set_oidCounter 17 Sample.talking).
Proof.
  split; [reflexivity|].
  exact (proj2 (proj2 (proj2 (mixed_case_receiver_fails Sample.talking Sample.alice
                                "BBBBBBBBBBBBBBBBBBBBBBBB" Sample.bob Sample.uBob
                                Sample.chatAB eq_refl eq_refl eq_refl eq_refl eq_refl
                                eq_refl)))
               Sample.uAlice eq_refl).
Defined.

(** ** The sweep on any store *)

(** X16.  After a sweep of a quiet store no pair key has two active chats,
    however many were filed under it before. *)
Theorem sweep_no_duplicates_left (w : World) (k : string) :
  sched w = [] ->
  (List.length (activeWithKey k (chats (sweep w))) <= 1)%nat.
Proof.
  intros Hq. rewrite (sweep_quiet w Hq). cbn [chats set_chats].
  rewrite activeWithKey_filter. apply sweep_leaves_one.
Qed.

Lemma sweep_no_duplicates_left_witness :
  (List.length (activeWithKey Sample.keyAB (chats (sweep Sample.duplicated))) <= 1)%nat.
Proof. exact (sweep_no_duplicates_left Sample.duplicated Sample.keyAB eq_refl). Defined.

Lemma deactivateAll_cases (ids : list ObjectId) (cs : list Chat) (c' : Chat) :
  In c' (deactivateAll ids cs) ->
  exists c, In c cs /\ (c' = c \/ (In (chat_id c) ids /\ c' = chat_set_active false c)).
Proof.
  unfold deactivateAll. intros H. apply in_map_iff in H as (c & <- & Hin).
  exists c. split; trivial.
  destruct (memId (chat_id c) ids) eqn:E; [|now left].
  right. split; trivial. now apply memId_In.
Qed.

Lemma deactivateAll_frame (ids : list ObjectId) (cs : list Chat) :
  map (fun c => (chat_id c, participants c, participantsKey c, lastMessage c,
                 lastMessageAt c, chat_createdAt c)) (deactivateAll ids cs)
  = map (fun c => (chat_id c, participants c, participantsKey c, lastMessage c,
                   lastMessageAt c, chat_createdAt c)) cs.
Proof.
  unfold deactivateAll. rewrite map_map. apply map_ext. intros c.
  now destruct (memId (chat_id c) ids).
Qed.

Lemma moveOne_frame (ids : list ObjectId) (keep : ObjectId) (m : Message) :
  (msg_id (moveOne ids keep m), sender (moveOne ids keep m),
   receiver (moveOne ids keep m), content (moveOne ids keep m),
   messageType (moveOne ids keep m), isRead (moveOne ids keep m),
   readAt (moveOne ids keep m), msg_createdAt (moveOne ids keep m))
  = (msg_id m, sender m, receiver m, content m, messageType m, isRead m, readAt m,
     msg_createdAt m).
Proof.
  unfold moveOne. destruct (chatId m) as [c|]; trivial.
  now destruct (memId c ids).
Qed.

Lemma sweepOne_frame (G : list (string * list Chat)) (m : Message) :
  (msg_id (sweepOne G m), sender (sweepOne G m), receiver (sweepOne G m),
   content (sweepOne G m), messageType (sweepOne G m), isRead (sweepOne G m),
   readAt (sweepOne G m), msg_createdAt (sweepOne G m))
  = (msg_id m, sender m, receiver m, content m, messageType m, isRead m, readAt m,
     msg_createdAt m).
Proof.
  revert m. unfold sweepOne. induction G as [|g G IH]; intros m; trivial.
  cbn [fold_left]. rewrite IH. apply moveOne_frame.
Qed.

(** Where the sweep files a message: under the chat it was in, or under a
    chat some group keeps. *)
Lemma sweepOne_target (G : list (string * list Chat)) (m : Message) :
  chatId (sweepOne G m) = chatId m
  \/ exists g, In g G /\ (1 < List.length (snd g))%nat
               /\ chatId (sweepOne G m) = Some (keepIdOf (snd g)).
Proof.
  revert m. unfold sweepOne. induction G as [|g G IH]; intros m; [now left|].
  cbn [fold_left].
  destruct (IH (moveOne (dupIdsOf (snd g)) (keepIdOf (snd g)) m)) as [E|(g' & Hin & Hl & E)].
  - rewrite E. unfold moveOne. destruct (chatId m) as [c|] eqn:Hc; [|left; exact Hc].
    destruct (memId c (dupIdsOf (snd g))) eqn:Hm; [|left; exact Hc].
    right. exists g. split; [now left|]. split; trivial.
    unfold dupIdsOf in Hm. destruct (1 <? List.length (snd g))%nat eqn:Hl.
    + now apply Nat.ltb_lt.
    + discriminate.
  - right. exists g'. split; [now right|]. now split.
Qed.

Lemma keepIdOf_member (cs : list Chat) :
  (1 < List.length cs)%nat -> exists c, In c cs /\ keepIdOf cs = chat_id c.
Proof.
  intros Hl. unfold keepIdOf.
  destruct (sortBy byRecency cs) as [|c l] eqn:Hs.
  - apply (f_equal (@List.length Chat)) in Hs. rewrite sortBy_length in Hs.
    simpl in Hs. lia.
  - exists c. split; trivial. apply (in_sortBy_iff byRecency). rewrite Hs. now left.
Qed.

(** X17.  The sweep deletes nothing and only ever switches chats off and
    re-files messages.  On a quiet store, every chat is still there with
    the same identity, participants, key, pointer and timestamps; a chat
    whose flag changed was active and is now inactive; every message is
    still there with the same identity, sender, receiver, content, type
    and read state; a message whose chat changed now belongs to a chat
    that was active in the store; users are untouched. *)
Theorem sweep_only_deactivates_and_refiles (w : World) :
  sched w = [] ->
  map (fun c => (chat_id c, participants c, participantsKey c, lastMessage c,
                 lastMessageAt c, chat_createdAt c)) (chats (sweep w))
  = map (fun c => (chat_id c, participants c, participantsKey c, lastMessage c,
                   lastMessageAt c, chat_createdAt c)) (chats w)
  /\ Forall2 (fun c c' => isActive c' = isActive c
                          \/ (isActive c = true /\ isActive c' = false))
             (chats w) (chats (sweep w))
  /\ map (fun m => (msg_id m, sender m, receiver m, content m, messageType m,
                    isRead m, readAt m, msg_createdAt m)) (messages (sweep w))
     = map (fun m => (msg_id m, sender m, receiver m, content m, messageType m,
                      isRead m, readAt m, msg_createdAt m)) (messages w)
  /\ Forall2 (fun m m' => chatId m' = chatId m
                          \/ exists c, In c (chats w) /\ isActive c = true
                                       /\ chatId m' = Some (chat_id c))
             (messages w) (messages (sweep w))
  /\ users (sweep w) = users w.
Proof.
  intros Hq. rewrite (sweep_quiet w Hq). cbn [chats messages users set_chats set_messages].
  split; [apply deactivateAll_frame|]. split; [|split; [|split; [|reflexivity]]].
  - unfold deactivateAll.
    generalize (flat_map (fun g => dupIdsOf (snd g)) (groupsOf (chats w))). intros D.
    induction (chats w) as [|c cs IH]; simpl; constructor; trivial.
    destruct (memId (chat_id c) D); [|now left].
    destruct (isActive c) eqn:Ha; [right; now split | now left].
  - rewrite sweepMessages_map, map_map. apply map_ext. intros m. apply sweepOne_frame.
  - rewrite sweepMessages_map.
    induction (messages w) as [|m ms IH]; simpl; constructor; trivial.
    destruct (sweepOne_target (groupsOf (chats w)) m) as [E|([k cs] & Hin & Hl & E)];
      [now left|].
    right. cbn [snd] in *. destruct (keepIdOf_member cs Hl) as (c & Hc & Hk).
    rewrite (groupsOf_spec k cs _ Hin) in Hc.
    apply filter_In in Hc as [Hc _]. apply filter_In in Hc as [Hc Ha].
    exists c. repeat split; trivial. now rewrite E, Hk.
Qed.

Lemma sweep_only_deactivates_and_refiles_witness :
  map (fun m => (msg_id m, sender m, receiver m, content m, messageType m,
                 isRead m, readAt m, msg_createdAt m)) (messages (sweep Sample.duplicated))
  = map (fun m => (msg_id m, sender m, receiver m, content m, messageType m,
                   isRead m, readAt m, msg_createdAt m)) (messages Sample.duplicated).
Proof.
  exact (proj1 (proj2 (proj2 (sweep_only_deactivates_and_refiles Sample.duplicated
                                eq_refl)))).
Defined.

Lemma mergeGroups_small (groups : list (string * list Chat)) (ids : list ObjectId)
      (n : nat) (w : World) :
  (forall g, In g groups -> (List.length (snd g) <= 1)%nat) ->
  mergeGroups groups ids n w = (inr (ids, n), w).
Proof.
  induction groups as [|[k cs] groups IH]; intros H; [reflexivity|].
  cbn [mergeGroups].
  replace (1 <? List.length cs)%nat with false.
  - apply IH. intros g Hg. apply H. now right.
  - symmetry. apply Nat.ltb_ge. apply (H (k, cs)). now left.
Qed.

Lemma unique_groups_small (cs : list Chat) :
  List.NoDup (map participantsKey cs) ->
  forall g, In g (groupsOf cs) -> (List.length (snd g) <= 1)%nat.
Proof.
  intros Hnd [k g] Hin. cbn [snd]. rewrite (groupsOf_spec k g cs Hin).
  rewrite <- activeWithKey_filter.
  pose proof (activeWithKey_sub k cs). pose proof (unique_key_filter k cs Hnd). lia.
Qed.

(** X18.  Under the unique index on the pair key the sweep has nothing to
    do: in any store reached from one where the index holds, a sweep of
    the quiet store finds no orphan and no duplicate, answers with zero
    counts and writes nothing. *)
Theorem sweep_idle_under_unique_index (w0 w : World) :
  uniqueKeys w0 ->
  reachableFrom w0 w ->
  cleanup_route (set_sched [] w)
  = (inr (mkResponse 200 true
                     "Cleaned up 0 orphaned chats and merged 0 duplicate chats"
                     (CleanupBody 0 0 0)),
     set_sched [] w).
Proof.
  intros H0 Hr. pose proof (reachable_unique w0 w H0 Hr) as Hu.
  unfold cleanup_route, try_catch. unfold bind at 1.
  rewrite await_quiet by reflexivity.
  unfold Chat_findActive_populated. rewrite classify_populated.
  cbv zeta. cbn [fst snd chats set_sched users]. fold (groupsOf (chats w)).
  rewrite (bind_ok _ _ _ _ _ (mergeGroups_small _ [] 0%nat _ (unique_groups_small _ Hu))).
  reflexivity.
Qed.

Lemma sweep_idle_under_unique_index_witness :
  cleanup_route (set_sched [] Sample.raced)
  = (inr (mkResponse 200 true
                     "Cleaned up 0 orphaned chats and merged 0 duplicate chats"
                     (CleanupBody 0 0 0)),
     set_sched [] Sample.raced).
Proof.
  apply (sweep_idle_under_unique_index emptyWorld Sample.raced).
  - constructor.
  - exact raced_reachable.
Defined.

Lemma mergeGroups_counts (groups : list (string * list Chat)) :
  forall (ids : list ObjectId) (n : nat) (w w' : World) (ids' : list ObjectId) (n' : nat),
    mergeGroups groups ids n w = (inr (ids', n'), w') ->
    (List.length ids' + n = List.length ids + n')%nat.
Proof.
  induction groups as [|[k cs] groups IH]; intros ids n w w' ids' n' H.
  - cbn [mergeGroups] in H. unfold ret in H. congruence.
  - cbn [mergeGroups] in H.
    destruct (1 <? List.length cs)%nat eqn:Hl; [|now apply (IH _ _ _ _ _ _ H)].
    destruct (sortBy byRecency cs) as [|keepChat others] eqn:Hs; [discriminate|].
    unfold bind in H.
    destruct (await _ w) as [[e|[]] w1]; [discriminate|].
    apply IH in H. rewrite length_app, length_map in H.
    apply (f_equal (@List.length Chat)) in Hs. rewrite sortBy_length in Hs.
    simpl in Hs. lia.
Qed.

(** X19.  The sweep always answers, and its report has a fixed shape:
    either the 500 answer, or a 200 answer whose orphan count is zero (a
    populated participant array holds no null) and whose total equals the
    number of merged chats. *)
Theorem cleanup_report_shape (w : World) :
  exists r,
    fst (cleanup_route w) = inr r
    /\ ((status r = 500 /\ success r = false /\ body r = NoBody)
        \/ exists merged, status r = 200 /\ success r = true
                          /\ body r = CleanupBody 0 merged merged).
Proof.
  unfold cleanup_route, try_catch. unfold bind at 1.
  destruct (await Chat_findActive_populated w) as [[e|allChats] w1] eqn:Hfind.
  { eexists. split; [reflexivity|]. left. now repeat split. }
  assert (Hall : exists us cs, allChats
            = map (fun c => (c, flat_map (fun id => match findUser id us with
                                                     | Some u => [Some u]
                                                     | None => []
                                                     end) (participants c))) cs).
  { rewrite await_settle in Hfind. destruct (headFault w); [discriminate|].
    unfold Chat_findActive_populated in Hfind. injection Hfind as <- _. eauto. }
  destruct Hall as (us & cs & ->). rewrite classify_populated.
  cbv zeta. cbn [fst snd]. unfold bind at 1.
  destruct (mergeGroups _ [] 0%nat w1) as [[e|[ids n]] w2] eqn:Hm.
  { eexists. split; [reflexivity|]. left. now repeat split. }
  apply mergeGroups_counts in Hm. cbn [List.length] in Hm.
  cbn [fst snd]. unfold bind.
  destruct ((if (0 <? List.length ids)%nat
             then await (Chat_deactivateMany ids) else ret tt) w2) as [[e|[]] w3].
  { eexists. split; [reflexivity|]. left. now repeat split. }
  eexists. split; [reflexivity|]. right. exists n. cbn [status success body List.length].
  repeat split. f_equal. lia.
Qed.

(** ** The chat list *)

Lemma mapSet_In (k : string) (v : ListEntry) (m : list (string * ListEntry))
      (p : string * ListEntry) :
  In p (mapSet k v m) -> In p m \/ p = (k, v).
Proof.
  induction m as [|[k' v'] m IH]; simpl.
  - intros [<-|[]]. now right.
  - destruct (k' =? k) eqn:E.
    + apply String.eqb_eq in E. subst k'. intros [<-|H]; [now right | left; now right].
    + intros [<-|H]; [left; now left|]. destruct (IH H) as [H'|H']; [left; now right | now right].
Qed.

Lemma mapSet_keys (k : string) (v : ListEntry) (m : list (string * ListEntry)) (x : string) :
  In x (map fst (mapSet k v m)) -> In x (map fst m) \/ x = k.
Proof.
  intros H. apply in_map_iff in H as (p & <- & Hp).
  apply mapSet_In in Hp as [Hp| ->]; [left; now apply in_map | now right].
Qed.

Lemma mapSet_NoDup (k : string) (v : ListEntry) (m : list (string * ListEntry)) :
  List.NoDup (map fst m) -> List.NoDup (map fst (mapSet k v m)).
Proof.
  induction m as [|[k' v'] m IH]; simpl; intros H.
  - constructor; [tauto | constructor].
  - inversion H as [|? ? Hn Hd]; subst. destruct (k' =? k) eqn:E; simpl.
    + now constructor.
    + constructor; [|now apply IH].
      intros Hin. apply mapSet_keys in Hin as [Hin| ->]; [tauto|].
      now rewrite String.eqb_refl in E.
Qed.

Lemma listLoop_mapOk (me : ObjectId) (chats : list ListedChat) :
  forall tc m, mapOk me m -> mapOk me (snd (listLoop me chats tc m)).
Proof.
  induction chats as [|chat rest IH]; intros tc m Hm; [exact Hm|].
  cbn [listLoop].
  destruct (List.find _ (validParticipants (lc_participants chat))) as [other|] eqn:Hf;
    [|now apply IH].
  assert (Hset : mapOk me (mapSet (user_id other) (entryOf chat other) m)).
  { destruct Hm as [Hnd Hk]. split; [now apply mapSet_NoDup|].
    intros p Hp. apply mapSet_In in Hp as [Hp| ->]; [now apply Hk|].
    cbn [fst snd entryOf le_user]. split; trivial.
    apply find_some in Hf as [_ Hne]. apply negb_true_iff in Hne.
    intros E. rewrite E, String.eqb_refl in Hne. discriminate. }
  cbv zeta. destruct (mapGet (user_id other) m) as [existing|]; [|now apply IH].
  destruct (existingTime existing <? currentTime chat)%Z; now apply IH.
Qed.

Lemma mapOk_users (me : ObjectId) (m : list (string * ListEntry)) :
  mapOk me m ->
  List.NoDup (map (fun e => user_id (le_user e)) (map snd m))
  /\ forall e, In e (map snd m) -> user_id (le_user e) <> me.
Proof.
  intros [Hnd Hk]. split.
  - rewrite map_map. erewrite map_ext_in; [exact Hnd|].
    intros p Hp. symmetry. now apply Hk.
  - intros e He. apply in_map_iff in He as (p & <- & Hp).
    destruct (Hk p Hp) as [E Hne]. now rewrite <- E.
Qed.

(** X20.  Whatever the store holds and whatever happens meanwhile, a chat
    list that is returned names no user twice, never names the requester,
    and is ordered from the most recent last message to the oldest. *)
Theorem chat_list_one_entry_per_user (reqUser : User) (w w' : World)
        (entries : list ListEntry) :
  chat_list_route reqUser w = (inr (ChatListOk entries), w') ->
  List.NoDup (map (fun e => user_id (le_user e)) entries)
  /\ (forall e, In e entries -> user_id (le_user e) <> user_id reqUser)
  /\ StronglySorted (fun a b => (existingTime b <= existingTime a)%Z) entries.
Proof.
  unfold chat_list_route, try_catch. unfold bind at 1.
  destruct (await (Chat_findMine (user_id reqUser)) w) as [[e|found] w1];
    [unfold ret; intros H; discriminate|].
  cbv zeta. unfold bind.
  destruct ((if (0 <? List.length (fst (listLoop (user_id reqUser) found [] [])))%nat
             then deferredCleanup (fst (listLoop (user_id reqUser) found [] []))
             else ret tt) w1) as [[e|[]] w2]; unfold ret; intros H;
    [discriminate|]. injection H as <- _.
  assert (Hok : mapOk (user_id reqUser) (snd (listLoop (user_id reqUser) found [] []))).
  { apply listLoop_mapOk. split; [constructor | intros p []]. }
  apply mapOk_users in Hok as [Hnd Hne].
  split; [|split].
  - eapply Permutation_NoDup; [|exact Hnd].
    apply Permutation_map, Permutation_sym, sortBy_perm.
  - intros e He. apply Hne. now apply (in_sortBy_iff byEntryTime).
  - eapply StronglySorted_impl; [|apply (sortBy_sorted byEntryTime)].
    + unfold byEntryTime. intros a b Hab. cbv beta in Hab. lia.
    + unfold byEntryTime. intros x y. lia.
    + unfold byEntryTime. intros x y z. lia.
Qed.

Lemma chat_list_one_entry_per_user_witness :
  map le_chatId (entriesOf (chat_list_route Sample.uAlice Sample.duplicated))
  = ["0000000000000000000000c2"]
  /\ List.NoDup (map (fun e => user_id (le_user e))
                     (entriesOf (chat_list_route Sample.uAlice Sample.duplicated))).
Proof.
  split; [reflexivity|].
  exact (proj1 (chat_list_one_entry_per_user Sample.uAlice Sample.duplicated
                  (snd (chat_list_route Sample.uAlice Sample.duplicated))
                  (entriesOf (chat_list_route Sample.uAlice Sample.duplicated))
                  eq_refl)).
Defined.

Lemma listLoop_ids (me : ObjectId) (chats : list ListedChat) :
  forall tc m,
    List.NoDup (map (fun lc => chat_id (lc_chat lc)) chats) ->
    (forall id, In id tc -> ~ In id (map (fun lc => chat_id (lc_chat lc)) chats)) ->
    (forall p, In p m ->
               ~ In (le_chatId (snd p)) tc
               /\ ~ In (le_chatId (snd p)) (map (fun lc => chat_id (lc_chat lc)) chats)) ->
    (forall p, In p (snd (listLoop me chats tc m)) ->
               ~ In (le_chatId (snd p)) (fst (listLoop me chats tc m)))
    /\ (forall id, In id (fst (listLoop me chats tc m)) ->
                   In id tc \/ In id (map (fun lc => chat_id (lc_chat lc)) chats))
    /\ (forall p, In p (snd (listLoop me chats tc m)) ->
                  In p m \/ In (le_chatId (snd p))
                               (map (fun lc => chat_id (lc_chat lc)) chats)).
Proof.
  induction chats as [|chat rest IH]; intros tc m Hnd Htc Hm.
  - cbn [listLoop fst snd]. repeat split; try tauto. intros p Hp. now apply Hm.
  - cbn [map] in *. inversion Hnd as [|? ? Hn Hd]; subst.
    assert (Hpush :
      (forall p, In p (snd (listLoop me rest (tc ++ [chat_id (lc_chat chat)]) m)) ->
                 ~ In (le_chatId (snd p))
                      (fst (listLoop me rest (tc ++ [chat_id (lc_chat chat)]) m)))
      /\ (forall id, In id (fst (listLoop me rest (tc ++ [chat_id (lc_chat chat)]) m)) ->
                     In id tc \/ In id (chat_id (lc_chat chat)
                                        :: map (fun lc => chat_id (lc_chat lc)) rest))
      /\ (forall p, In p (snd (listLoop me rest (tc ++ [chat_id (lc_chat chat)]) m)) ->
                    In p m \/ In (le_chatId (snd p))
                                 (chat_id (lc_chat chat)
                                  :: map (fun lc => chat_id (lc_chat lc)) rest))).
    { destruct (IH (tc ++ [chat_id (lc_chat chat)]) m Hd) as (H1 & H2 & H3).
      - intros id Hid. apply in_app_iff in Hid as [Hid|[<-|[]]]; trivial.
        intros Hin. apply (Htc id Hid). now right.
      - intros p Hp. destruct (Hm p Hp) as [Ha Hb]. split.
        + intros Hin. apply in_app_iff in Hin as [Hin|[E|[]]]; [tauto|].
          apply Hb. now left.
        + intros Hin. apply Hb. now right.
      - split; [exact H1|]. split.
        + intros id Hid. destruct (H2 id Hid) as [Hin|Hin].
          * apply in_app_iff in Hin as [Hin|[<-|[]]]; [now left | right; now left].
          * right. now right.
        + intros p Hp. destruct (H3 p Hp) as [Hin|Hin]; [now left | right; now right]. }
    cbn [listLoop].
    destruct (List.find _ (validParticipants (lc_participants chat))) as [other|];
      [|exact Hpush].
    assert (Hset :
      (forall p, In p (snd (listLoop me rest tc
                              (mapSet (user_id other) (entryOf chat other) m))) ->
                 ~ In (le_chatId (snd p))
                      (fst (listLoop me rest tc
                              (mapSet (user_id other) (entryOf chat other) m))))
      /\ (forall id, In id (fst (listLoop me rest tc
                                   (mapSet (user_id other) (entryOf chat other) m))) ->
                     In id tc \/ In id (chat_id (lc_chat chat)
                                        :: map (fun lc => chat_id (lc_chat lc)) rest))
      /\ (forall p, In p (snd (listLoop me rest tc
                                 (mapSet (user_id other) (entryOf chat other) m))) ->
                    In p m \/ In (le_chatId (snd p))
                                 (chat_id (lc_chat chat)
                                  :: map (fun lc => chat_id (lc_chat lc)) rest))).
    { destruct (IH tc (mapSet (user_id other) (entryOf chat other) m) Hd) as (H1 & H2 & H3).
      - intros id Hid Hin. apply (Htc id Hid). now right.
      - intros p Hp. apply mapSet_In in Hp as [Hp| ->].
        + destruct (Hm p Hp) as [Ha Hb]. split; trivial.
          intros Hin. apply Hb. now right.
        + cbn [snd entryOf le_chatId]. split; trivial.
          intros Hin. apply (Htc _ Hin). now left.
      - split; [exact H1|]. split.
        + intros id Hid. destruct (H2 id Hid) as [Hin|Hin]; [now left | right; now right].
        + intros p Hp. destruct (H3 p Hp) as [Hin|Hin].
          * apply mapSet_In in Hin as [Hin| ->]; [now left|]. right. now left.
          * right. now right. }
    cbv zeta. destruct (mapGet (user_id other) m) as [existing|]; [|exact Hset].
    destruct (existingTime existing <? currentTime chat)%Z; [exact Hset | exact Hpush].
Qed.

Lemma deactivateAll_keeps (ids : list ObjectId) (cs : list Chat) (c : Chat) :
  In c cs -> ~ In (chat_id c) ids -> In c (deactivateAll ids cs).
Proof.
  intros Hin Hn. unfold deactivateAll. apply in_map_iff. exists c. split; trivial.
  destruct (memId (chat_id c) ids) eqn:E; trivial.
  apply memId_In in E. contradiction.
Qed.

Lemma found_ids (us : list User) (ms : list Message) (cs : list Chat) :
  map (fun lc => chat_id (lc_chat lc)) (map (populateListed us ms) cs) = map chat_id cs.
Proof. rewrite map_map. reflexivity. Qed.

(** X21.  What the chat list switches off.  On a quiet store with unique
    chat identities the route answers with a list and deactivates a set
    of chats, changing nothing else; every chat it deactivates is an
    active chat of the requester, and no chat shown in the list is among
    them: each entry names an active chat of the requester that is in the
    store, unchanged, after the request. *)
Theorem chat_list_cleanup_spares_listed (reqUser : User) (w : World) :
  sched w = [] ->
  List.NoDup (map chat_id (chats w)) ->
  exists entries dropped,
    chat_list_route reqUser w
    = (inr (ChatListOk entries), set_chats (deactivateAll dropped (chats w)) w)
    /\ (forall id, In id dropped ->
                   exists c, In c (chats w) /\ chat_id c = id
                             /\ isMine (user_id reqUser) c = true)
    /\ (forall e, In e entries ->
                  exists c, In c (chats w) /\ chat_id c = le_chatId e
                            /\ isMine (user_id reqUser) c = true
                            /\ In c (deactivateAll dropped (chats w))).
Proof.
  intros Hq Hnd.
  set (mine := sortBy byLastMessageAt (List.filter (isMine (user_id reqUser)) (chats w))).
  set (found := map (populateListed (users w) (messages w)) mine).
  set (looped := listLoop (user_id reqUser) found [] []).
  assert (Hmine : forall id, In id (map chat_id mine) ->
                             exists c, In c (chats w) /\ chat_id c = id
                                       /\ isMine (user_id reqUser) c = true).
  { intros id Hid. apply in_map_iff in Hid as (c & <- & Hc).
    apply (proj1 (in_sortBy_iff byLastMessageAt _ _)) in Hc.
    apply filter_In in Hc as [Hc Hm].
    exists c. now repeat split. }
  assert (Hndm : List.NoDup (map chat_id mine)).
  { eapply Permutation_NoDup.
    - apply Permutation_map, Permutation_sym, sortBy_perm.
    - now apply NoDup_map_filter. }
  destruct (listLoop_ids (user_id reqUser) found [] []) as (H1 & H2 & H3).
  { unfold found. now rewrite found_ids. }
  { intros id []. }
  { intros p []. }
  fold looped in H1, H2, H3. unfold found in H2, H3. rewrite found_ids in H2, H3.
  exists (sortBy byEntryTime (map snd (snd looped))), (fst looped).
  split; [|split].
  - unfold chat_list_route, try_catch. unfold bind at 1.
    rewrite await_quiet by exact Hq. unfold Chat_findMine.
    fold mine. fold found. cbv zeta. fold looped. unfold bind.
    destruct (fst looped) as [|d ds] eqn:Hd.
    + cbn [List.length Nat.ltb Nat.leb]. unfold ret. rewrite deactivateAll_nil.
      destruct w; reflexivity.
    + cbn [List.length Nat.ltb Nat.leb]. unfold deferredCleanup, try_catch.
      rewrite await_quiet by exact Hq. reflexivity.
  - intros id Hid. destruct (H2 id Hid) as [[]|Hin]. now apply Hmine.
  - intros e He. apply (proj1 (in_sortBy_iff byEntryTime _ _)) in He.
    apply in_map_iff in He as (p & <- & Hp).
    destruct (H3 p Hp) as [[]|Hin].
    destruct (Hmine _ Hin) as (c & Hc & Hid & Hm).
    exists c. repeat split; trivial.
    apply deactivateAll_keeps; trivial. rewrite Hid. now apply H1.
Qed.

Lemma chat_list_cleanup_spares_listed_witness :
  exists entries dropped,
    chat_list_route Sample.uAlice Sample.duplicated
    = (inr (ChatListOk entries),
       set_chats (deactivateAll dropped (chats Sample.duplicated)) Sample.duplicated).
Proof.
  assert (Hn : List.NoDup (map chat_id (chats Sample.duplicated))).
  { repeat constructor; simpl; intuition discriminate. }
  destruct (chat_list_cleanup_spares_listed Sample.uAlice Sample.duplicated eq_refl Hn)
    as (entries & dropped & H & _).
  exists entries, dropped. exact H.
Defined.

(** ** The handshake *)

Lemma lowerHex_canonical (c : ascii) :
  isHexDigit c = true ->
  isHexDigit (lowerHex c) = true /\ lowerHex (lowerHex c) = lowerHex c.
Proof.
  destruct c as [[] [] [] [] [] [] [] []]; vm_compute; intros H;
    try discriminate H; split; reflexivity.
Qed.

Lemma length_string_of_list (l : list ascii) :
  String.length (string_of_list_ascii l) = List.length l.
Proof. induction l as [|c l IH]; simpl; congruence. Qed.

Lemma length_list_of_string (s : string) :
  List.length (list_ascii_of_string s) = String.length s.
Proof. induction s as [|c s IH]; simpl; congruence. Qed.

Lemma lowerHex_all (l : list ascii) :
  forallb isHexDigit l = true ->
  forallb isHexDigit (map lowerHex l) = true
  /\ map lowerHex (map lowerHex l) = map lowerHex l.
Proof.
  induction l as [|c l IH]; simpl; [tauto|].
  intros H. apply andb_true_iff in H as [Hc Hl].
  destruct (lowerHex_canonical c Hc) as [H1 H2]. destruct (IH Hl) as [H3 H4].
  now rewrite H1, H2, H3, H4.
Qed.

(** An ObjectId's string form casts to itself. *)
Lemma cast_canonical (s : string) (oid : ObjectId) :
  castObjectId s = Some oid -> castObjectId oid = Some oid.
Proof.
  unfold castObjectId. destruct (isMongoId s) eqn:Hs; [|discriminate].
  intros H. injection H as <-. unfold isMongoId in *.
  apply andb_true_iff in Hs as [Hlen Hhex]. apply Nat.eqb_eq in Hlen.
  destruct (lowerHex_all _ Hhex) as [H1 H2].
  rewrite length_string_of_list, length_map, length_list_of_string, Hlen.
  rewrite list_ascii_of_string_of_list_ascii, H1, H2. reflexivity.
Qed.

Lemma findUser_some (id : ObjectId) (us : list User) (u : User) :
  findUser id us = Some u -> In u us /\ user_id u = id.
Proof.
  unfold findUser. intros H. apply find_some in H as [Hin E].
  apply String.eqb_eq in E. now split.
Qed.

(** X22.  The handshake admits a connection only for a token that
    verifies and names a stored user; the socket it admits carries that
    user and the user's identity in canonical form, which is what the
    handlers later take as the sender.  Every refusal is an error given to
    [next], never an exception. *)
Theorem handshake_admits_stored_users (jwt_verify : string -> Error + string)
        (sid : string) (token : option string) (w : World) :
  (exists msg, fst (authenticate jwt_verify sid token w) = inr (inl msg))
  \/ (exists t uid u,
         token = Some t /\ jwt_verify t = inr uid
         /\ authenticate jwt_verify sid token w
            = (inr (inr (mkSocket sid (user_id u) u)), settle w)
         /\ In u (users (settle w))
         /\ castObjectId uid = Some (user_id u)
         /\ castObjectId (user_id u) = Some (user_id u)).
Proof.
  unfold authenticate, try_catch.
  destruct token as [t|]; [|left; eexists; reflexivity].
  destruct t as [|a t']; [left; eexists; reflexivity|].
  destruct (jwt_verify (String a t')) as [e|uid] eqn:Hv; [left; eexists; reflexivity|].
  unfold bind. rewrite await_settle.
  destruct (headFault w); [left; eexists; reflexivity|].
  unfold User_findById.
  destruct (castObjectId uid) as [oid|] eqn:Hc; [|left; eexists; reflexivity].
  destruct (findUser oid (users (settle w))) as [u|] eqn:Hu; [|left; eexists; reflexivity].
  right. exists (String a t'), uid, u.
  apply findUser_some in Hu as [Hin Hid]. subst oid.
  repeat split; trivial. exact (cast_canonical _ _ Hc).
Qed.

(** ** Creating a chat explicitly *)

Lemma resolveChatOrNull_hit (s r : string) (c : Chat) (w : World) :
  sched w = [] ->
  findChatByKey (PairKey.participantsKey s r) (chats w) = Some c ->
  resolveChatOrNull s r w = (inr (Some c), w).
Proof.
  intros Hq Hc. unfold resolveChatOrNull. cbv zeta. unfold bind.
  rewrite (await_quiet _ _ Hq). unfold Chat_findOne.
  unfold PairKey.participantsKey, PairKey.sortedParticipants in Hc. now rewrite Hc.
Qed.

Lemma resolveChatOrNull_creates (w : World) (s r : string) (s' r' : ObjectId) :
  sched w = [] ->
  castObjectId s = Some s' -> castObjectId r = Some r' ->
  findChatByKey (PairKey.participantsKey s r) (chats w) = None ->
  findChatByKey (PairKey.participantsKey s' r') (chats w) = None ->
  findChatById (oidOfCounter (oidCounter w)) (chats w) = None ->
  resolveChatOrNull s r w
  = (inr (Some (createdChat w s' r')),
     set_chats (chats w ++ [createdChat w s' r']) (set_oidCounter (oidCounter w + 1)%N w)).
Proof.
  intros Hq Hs Hr Hraw Hk Hid. unfold resolveChatOrNull. cbv zeta.
  unfold bind at 1. rewrite await_quiet by exact Hq. unfold Chat_findOne.
  unfold PairKey.participantsKey, PairKey.sortedParticipants in Hraw. rewrite Hraw.
  unfold try_catch.
  now rewrite (bind_ok _ _ _ _ _ (createChat_fresh w s r s' r' Hq Hs Hr Hk Hid)).
Qed.

Lemma populateParticipants_quiet (c : Chat) (w : World) :
  sched w = [] ->
  await (populateParticipants c) w
  = (inr (flat_map (fun id => match findUser id (users w) with
                              | Some u => [Some u]
                              | None => []
                              end) (participants c)), w).
Proof. intros Hq. now rewrite await_quiet by exact Hq. Qed.

Lemma other_found (s r : ObjectId) (ru : User) (us : list User) (w : World) :
  s <> r ->
  findUser r us = Some ru ->
  findOther s (flat_map (fun id => match findUser id us with
                                   | Some u => [Some u]
                                   | None => []
                                   end) (PairKey.sort [s; r])) w
  = (inr (Some ru), w).
Proof.
  intros Hne Hru. rewrite sort_pair.
  destruct (findUser_some _ _ _ Hru) as [_ Hid].
  assert (Hr : negb (user_id ru =? s) = true).
  { apply negb_true_iff, eqb_false_of_neq. congruence. }
  destruct (findUser s us) as [su|] eqn:Hsu.
  - destruct (findUser_some _ _ _ Hsu) as [_ Hsid].
    destruct (String.leb s r); cbn [flat_map app]; rewrite Hsu, Hru; cbn [app findOther];
      rewrite ?Hr, ?Hsid, ?String.eqb_refl; cbn [negb]; rewrite ?Hr; reflexivity.
  - destruct (String.leb s r); cbn [flat_map app]; rewrite Hsu, Hru; cbn [app findOther];
      rewrite Hr; reflexivity.
Qed.

(** X23.  [POST /chat/create] is idempotent.  On a quiet store, for a
    stored receiver other than the requester and no chat yet between the
    two, the first call creates the pair's chat and answers 201 with its
    identity and the receiver; a second call answers the same and leaves
    the store as the first call left it. *)
Theorem chat_create_idempotent (reqUser ru : User) (receiverId : string) (w : World) :
  sched w = [] ->
  castObjectId (user_id reqUser) = Some (user_id reqUser) ->
  castObjectId receiverId = Some receiverId ->
  user_id reqUser <> receiverId ->
  findUser receiverId (users w) = Some ru ->
  findChatByKey (PairKey.participantsKey (user_id reqUser) receiverId) (chats w) = None ->
  findChatById (oidOfCounter (oidCounter w)) (chats w) = None ->
  let c := createdChat w (user_id reqUser) receiverId in
  let answer := mkResponse 201 true "Chat created successfully"
                           (ChatBody (mkFormattedChat (chat_id c) ru)) in
  let w1 := set_chats (chats w ++ [c]) (set_oidCounter (oidCounter w + 1)%N w) in
  post_chat_create reqUser receiverId w = (inr answer, w1)
  /\ post_chat_create reqUser receiverId w1 = (inr answer, w1).
Proof.
  intros Hq Hs Hr Hne Hru Hkey Hid. cbv zeta.
  set (c := createdChat w (user_id reqUser) receiverId).
  set (w1 := set_chats (chats w ++ [c]) (set_oidCounter (oidCounter w + 1)%N w)).
  assert (Hq1 : sched w1 = []) by exact Hq.
  assert (Hru1 : findUser receiverId (users w1) = Some ru) by exact Hru.
  assert (Hhit : findChatByKey (PairKey.participantsKey (user_id reqUser) receiverId)
                               (chats w1) = Some c).
  { unfold findChatByKey, w1 in *. cbn [chats set_chats].
    rewrite find_app_miss by exact Hkey. cbn [List.find].
    unfold c at 1, createdChat at 1. cbn [participantsKey].
    unfold PairKey.participantsKey, PairKey.sortedParticipants.
    now rewrite String.eqb_refl. }
  unfold post_chat_create. rewrite (castObjectId_isMongoId _ _ Hr). cbn [negb]. cbv zeta.
  split.
  - rewrite (try_catch_bind_ok _ _ _ _ _ _ (first_find w receiverId receiverId ru Hq Hr Hru)).
    cbv beta iota.
    rewrite (try_catch_bind_ok _ _ _ _ _ _
               (resolveChatOrNull_creates w _ _ _ _ Hq Hs Hr Hkey Hkey Hid)).
    fold c. fold w1. cbv beta iota.
    rewrite (try_catch_bind_ok _ _ _ _ _ _ (populateParticipants_quiet c w1 Hq1)).
    rewrite (try_catch_bind_ok _ _ _ _ _ _
               (other_found (user_id reqUser) receiverId ru (users w1) w1 Hne Hru1)).
    reflexivity.
  - rewrite (try_catch_bind_ok _ _ _ _ _ _
               (first_find w1 receiverId receiverId ru Hq1 Hr Hru1)).
    cbv beta iota.
    rewrite (try_catch_bind_ok _ _ _ _ _ _ (resolveChatOrNull_hit _ _ _ _ Hq1 Hhit)).
    cbv beta iota.
    rewrite (try_catch_bind_ok _ _ _ _ _ _ (populateParticipants_quiet c w1 Hq1)).
    rewrite (try_catch_bind_ok _ _ _ _ _ _
               (other_found (user_id reqUser) receiverId ru (users w1) w1 Hne Hru1)).
    reflexivity.
Qed.

Lemma chat_create_idempotent_witness :
  post_chat_create Sample.uAlice Sample.bob Sample.fresh
  = (inr (mkResponse 201 true "Chat created successfully"
            (ChatBody (mkFormattedChat "000000000000000000000001" Sample.uBob))),
     set_chats [createdChat Sample.fresh Sample.alice Sample.bob]
               (set_oidCounter 2 Sample.fresh)).
Proof.
  assert (Hne : user_id Sample.uAlice <> Sample.bob) by discriminate.
  exact (proj1 (chat_create_idempotent Sample.uAlice Sample.uBob Sample.bob Sample.fresh
                  eq_refl eq_refl eq_refl Hne eq_refl eq_refl eq_refl)).
Defined.
